(** * build_questions.py: a shallow embedding of the quiz-text parser

    The development follows [src/build_questions.py]: the two label
    taggers [extract_module] and [extract_difficulty] and the block parser
    [parse_quiz_text].

    Modelling conventions.
    - A Python [str] is a list of 8-bit characters ([list ascii]), read as the
      code points U+0000..U+00FF.  Character classes ([str.strip], [\s], [\d],
      [str.lower], IGNORECASE) are the ones CPython uses on that range.
    - A Python [int] is an [N] (only non-negative literals are ever parsed);
      the interpreter's configurable limit on the length of a decimal literal
      is not modelled.
    - Operations that can raise in Python ([lines[i]], [m.group(k)], [int(s)])
      return a [result]; [while] loops take fuel and raise [OutOfFuel] when it
      runs out, the caller handing each loop one unit more than the number of
      lines of the block.
    - Regular expressions are values of an inductive type, interpreted by a
      backtracking matcher with CPython's priorities (ordered alternation,
      greedy repetition, atomic look-ahead). *)

From Stdlib Require Import Ascii String NArith Arith Bool Lia DecimalString List.
From Stdlib Require DecimalPos DecimalN.
Import ListNotations.

Local Open Scope char_scope.
Local Open Scope list_scope.

(** ** Strings *)

Definition str : Type := list ascii.

Notation "'py' s" := (list_ascii_of_string s%string) (at level 9, s at level 0, only parsing).

Definition code (c : ascii) : nat := nat_of_ascii c.

Definition between (lo hi n : nat) : bool := ((lo <=? n) && (n <=? hi))%nat.

(** [str.isspace] on U+0000..U+00FF: TAB..CR, FS..US, SPACE, NEL, NBSP. *)
Definition is_space (c : ascii) : bool :=
  let n := code c in
  between 9 13 n || between 28 32 n || (n =? 133)%nat || (n =? 160)%nat.

(** [\d] on a [str] pattern is the Unicode decimal digits; below U+0100
    these are 0..9. *)
Definition is_digit (c : ascii) : bool := between 48 57 (code c).

(** [str.lower], one character: A..Z and the Latin-1 capitals (U+00D7, the
    multiplication sign, is not a letter). *)
Definition lower_char (c : ascii) : ascii :=
  let n := code c in
  if between 65 90 n || (between 192 222 n && negb (n =? 215)%nat)
  then ascii_of_nat (n + 32) else c.

(** [str.upper], one character.  The letters whose capital lies outside
    U+0000..U+00FF (U+00B5, U+00DF, U+00FF) are left alone; the parser only
    upper-cases a capture of the class [[A-D]]. *)
Definition upper_char (c : ascii) : ascii :=
  let n := code c in
  if between 97 122 n || (between 224 254 n && negb (n =? 247)%nat)
  then ascii_of_nat (n - 32) else c.

Definition py_lower (s : str) : str := map lower_char s.
Definition py_upper (s : str) : str := map upper_char s.

(** Truth value of a sequence: [bool(s)]. *)
Definition truthy {A : Type} (l : list A) : bool :=
  match l with [] => false | _ :: _ => true end.

Fixpoint drop_while (p : ascii -> bool) (s : str) : str :=
  match s with
  | [] => []
  | c :: s' => if p c then drop_while p s' else s
  end.

Fixpoint take_while (p : ascii -> bool) (s : str) : str :=
  match s with
  | [] => []
  | c :: s' => if p c then c :: take_while p s' else []
  end.

Definition lstrip (s : str) : str := drop_while is_space s.
Definition rstrip (s : str) : str := rev (drop_while is_space (rev s)).
(** [s.strip()] *)
Definition strip (s : str) : str := rstrip (lstrip s).

(** [s.startswith(prefix)] *)
Fixpoint startswith (prefix s : str) : bool :=
  match prefix, s with
  | [], _ => true
  | _ :: _, [] => false
  | p :: prefix', c :: s' => Ascii.eqb p c && startswith prefix' s'
  end.

(** [needle in s] *)
Fixpoint contains (needle s : str) : bool :=
  startswith needle s ||
  match s with
  | [] => false
  | _ :: s' => contains needle s'
  end.

(** [s.replace("\r\n", "\n")] *)
Fixpoint replace_crlf (s : str) : str :=
  match s with
  | [] => []
  | c :: s' =>
      match s' with
      | d :: s'' =>
          if Ascii.eqb c "013" && Ascii.eqb d "010"
          then "010" :: replace_crlf s''
          else c :: replace_crlf s'
      | [] => [c]
      end
  end.

(** [s.split(sep)] for a one-character separator: never empty. *)
Fixpoint split_on (sep : ascii) (s : str) : list str :=
  match s with
  | [] => [[]]
  | c :: s' =>
      if Ascii.eqb c sep then [] :: split_on sep s'
      else match split_on sep s' with
           | l :: ls => (c :: l) :: ls
           | [] => [[c]]
           end
  end.

(** ** Exceptions *)

Inductive exn : Type :=
| IndexError
| ValueError
| OutOfFuel.

Inductive result (A : Type) : Type :=
| Ok (a : A)
| Raise (e : exn).

Arguments Ok {A} a.
Arguments Raise {A} e.

Definition bind {A B : Type} (m : result A) (f : A -> result B) : result B :=
  match m with
  | Ok a => f a
  | Raise e => Raise e
  end.

Notation "x <- m ;; k" := (bind m (fun x => k))
  (at level 61, m at next level, right associativity).
Notation "' p <- m ;; k" := (bind m (fun x => let p := x in k))
  (at level 61, p pattern, m at next level, right associativity).

(** ** Integers *)

Definition digit_value (c : ascii) : N := N.of_nat (code c - 48).

(** [int(s)] on a string of decimal digits; anything else is reported as
    [ValueError] (Python also accepts signs, blanks and underscores, which no
    call site of the parser can pass). *)
Definition py_int (s : str) : result N :=
  if truthy s && forallb is_digit s
  then Ok (fold_left (fun acc c => (10 * acc + digit_value c)%N) s 0%N)
  else Raise ValueError.

(** [str(n)], as the f-string [f"MD{num}"] formats it. *)
Definition py_str_int (n : N) : str :=
  list_ascii_of_string (NilEmpty.string_of_uint (N.to_uint n)).

(** ** Regular expressions *)

(** One-character items. *)
Inductive item : Type :=
| Lit (c : ascii)
| Range (lo hi : ascii)
| Space
| Digit
| Any.

Inductive regex : Type :=
| Eps
| One (i : item)
| Star (i : item)
| Plus (i : item)
| Opt (i : item)
| Seq (r1 r2 : regex)
| Alt (r1 r2 : regex)
| Group (r : regex)
| Ahead (r : regex)
| Bos
| Eos.

Infix ";;;" := Seq (at level 62, right associativity).

(** A literal word, character by character. *)
Fixpoint word (s : str) : regex :=
  match s with
  | [] => Eps
  | c :: s' => One (Lit c) ;;; word s'
  end.

Definition chars_between (lo hi : ascii) : list ascii :=
  map ascii_of_nat (seq (code lo) (S (code hi) - code lo)).

(** Does item [i] accept character [c]?  [ic] is the IGNORECASE flag: a
    literal or a range then accepts every character with the same lower-case
    form as one of its own. *)
Definition item_matches (ic : bool) (i : item) (c : ascii) : bool :=
  match i with
  | Lit x => if ic then Ascii.eqb (lower_char c) (lower_char x) else Ascii.eqb c x
  | Range lo hi =>
      if ic
      then existsb (fun x => Ascii.eqb (lower_char c) (lower_char x)) (chars_between lo hi)
      else between (code lo) (code hi) (code c)
  | Space => is_space c
  | Digit => is_digit c
  | Any => negb (Ascii.eqb c "010")
  end.

(** The state of a match attempt: the offset reached in the subject, the text
    still ahead, and the groups closed so far. *)
Definition cont : Type := nat -> str -> list str -> option (nat * list str).

Definition orelse {A : Type} (a b : option A) : option A :=
  match a with
  | Some x => Some x
  | None => b
  end.

(** Greedy [i*]: take one more character when possible, fall back to the
    continuation when the longer attempts fail. *)
Fixpoint star (ic : bool) (i : item) (pos : nat) (s : str) (caps : list str)
  (k : cont) : option (nat * list str) :=
  match s with
  | c :: s' =>
      if item_matches ic i c
      then orelse (star ic i (S pos) s' caps k) (k pos s caps)
      else k pos s caps
  | [] => k pos s caps
  end.

Fixpoint rmatch (ic : bool) (r : regex) (pos : nat) (s : str) (caps : list str)
  (k : cont) : option (nat * list str) :=
  match r with
  | Eps => k pos s caps
  | One i =>
      match s with
      | c :: s' => if item_matches ic i c then k (S pos) s' caps else None
      | [] => None
      end
  | Star i => star ic i pos s caps k
  | Plus i =>
      match s with
      | c :: s' => if item_matches ic i c then star ic i (S pos) s' caps k else None
      | [] => None
      end
  | Opt i =>
      match s with
      | c :: s' =>
          if item_matches ic i c
          then orelse (k (S pos) s' caps) (k pos s caps)
          else k pos s caps
      | [] => k pos s caps
      end
  | Seq r1 r2 => rmatch ic r1 pos s caps (fun p t cs => rmatch ic r2 p t cs k)
  | Alt r1 r2 => orelse (rmatch ic r1 pos s caps k) (rmatch ic r2 pos s caps k)
  | Group r1 =>
      rmatch ic r1 pos s caps (fun p t cs => k p t (cs ++ [firstn (p - pos) s]))
  | Ahead r1 =>
      match rmatch ic r1 pos s caps (fun p _ cs => Some (p, cs)) with
      | Some (_, cs) => k pos s cs
      | None => None
      end
  | Bos => if (pos =? 0)%nat then k pos s caps else None
  | Eos =>
      match s with
      | [] => k pos s caps
      | ["010"] => k pos s caps
      | _ => None
      end
  end.

(** A match object: where the match ends and what the groups captured. *)
Definition final : cont := fun p _ cs => Some (p, cs).

(** [re.match(r, s)]. *)
Definition re_match (ic : bool) (r : regex) (s : str) : option (nat * list str) :=
  rmatch ic r 0 s [] final.

(** [re.search(r, s)]: the first offset at which the pattern matches. *)
Fixpoint search_from (ic : bool) (r : regex) (pos : nat) (s : str)
  : option (nat * list str) :=
  orelse (rmatch ic r pos s [] final)
         match s with
         | [] => None
         | _ :: s' => search_from ic r (S pos) s'
         end.

Definition re_search (ic : bool) (r : regex) (s : str) : option (nat * list str) :=
  search_from ic r 0 s.

(** [m.group(k)] for [k >= 1]. *)
Definition group (m : nat * list str) (k : nat) : result str :=
  match nth_error (snd m) (k - 1) with
  | Some g => Ok g
  | None => Raise IndexError
  end.

(** The scan shared by [re.split] and [re.sub]: walk the subject, and where
    the pattern matches a non-empty span, cut that span out.  [skip] counts
    the characters of the current span still to be passed over, [cur] holds
    the piece being collected, in reverse. *)
Fixpoint cut_matches (ic : bool) (r : regex) (pos skip : nat) (s : str) (cur : str)
  : list str :=
  match s with
  | [] => [rev cur]
  | c :: s' =>
      match skip with
      | S n => cut_matches ic r (S pos) n s' cur
      | 0 =>
          match rmatch ic r pos s [] final with
          | Some (e, _) =>
              if (pos <? e)%nat
              then rev cur :: cut_matches ic r (S pos) (e - pos - 1) s' []
              else cut_matches ic r (S pos) 0 s' (c :: cur)
          | None => cut_matches ic r (S pos) 0 s' (c :: cur)
          end
      end
  end.

(** [re.split(r, s)] for a pattern without groups that matches no empty
    span. *)
Definition re_split (ic : bool) (r : regex) (s : str) : list str :=
  cut_matches ic r 0 0 s [].

(** [re.sub(r, "", s)]. *)
Definition re_sub_empty (ic : bool) (r : regex) (s : str) : str :=
  concat (cut_matches ic r 0 0 s []).

Definition is_match {A : Type} (m : option A) : bool :=
  match m with Some _ => true | None => false end.

(** ** The patterns of the program *)

(** [(?:md|mod)\s*0?(\d+)] *)
Definition MODULE_RE : regex :=
  Alt (word (py "md")) (word (py "mod")) ;;; Star Space ;;; Opt (Lit "0") ;;;
  Group (Plus Digit).

(** [\n\s*\n(?=Q\d+\.)] *)
Definition BLOCK_SEP_RE : regex :=
  One (Lit "010") ;;; Star Space ;;; One (Lit "010") ;;;
  Ahead (One (Lit "Q") ;;; Plus Digit ;;; One (Lit ".")).

(** [^Q(\d+)\.\s*] then the group [.*] and [$] *)
Definition QUESTION_RE : regex :=
  Bos ;;; One (Lit "Q") ;;; Group (Plus Digit) ;;; One (Lit ".") ;;; Star Space ;;;
  Group (Star Any) ;;; Eos.

(** [^[A-D]\.] *)
Definition OPTION_START_RE : regex :=
  Bos ;;; One (Range "A" "D") ;;; One (Lit ".").

(** [^([A-D])\.\s*] then the group [.*] and [$] *)
Definition OPTION_RE : regex :=
  Bos ;;; Group (One (Range "A" "D")) ;;; One (Lit ".") ;;; Star Space ;;;
  Group (Star Any) ;;; Eos.

(** [^answer:\s*([A-D])] *)
Definition ANSWER_RE : regex :=
  Bos ;;; word (py "answer:") ;;; Star Space ;;; Group (One (Range "A" "D")).

(** [^explanation:\s*] *)
Definition EXPLANATION_RE : regex :=
  Bos ;;; word (py "explanation:") ;;; Star Space.

(** ** The metadata taggers *)

Definition extract_module (source_name : str) : result str :=
  match re_search true MODULE_RE source_name with
  | Some m =>
      g <- group m 1 ;;
      num <- py_int g ;;
      Ok (py "MD" ++ py_str_int num)
  | None => Ok (py "Other")
  end.

Definition extract_difficulty (source_name : str) : str :=
  let lower := py_lower source_name in
  if contains (py "hard") lower then py "Hard"
  else if contains (py "medium") lower || contains (py "med ") lower
          || contains (py " tb med") lower then py "Medium"
  else if contains (py "easy") lower then py "Easy"
  else py "Unknown".

(** ** The records *)

(** An entry of the local list [options]. *)
Record option_entry : Type := mk_option {
  letter : str;
  text : str
}.

Record AnswerOption : Type := mk_answer {
  ao_text : str;
  isCorrect : bool;
  rationale : str
}.

Record QuestionRecord : Type := mk_question {
  question : str;
  hint : str;
  answerOptions : list AnswerOption;
  source : str;
  module : str;
  difficulty : str;
  questionNumber : option N
}.

(** ** The block parser *)

Definition str_eqb (a b : str) : bool :=
  if list_eq_dec ascii_dec a b then true else false.

(** [lines[i]] *)
Definition get (lines : list str) (i : nat) : result str :=
  match nth_error lines i with
  | Some l => Ok l
  | None => Raise IndexError
  end.

(** [range(a, b)] *)
Definition py_range (a b : nat) : list nat := seq a (b - a).

(** [[l.strip() for l in block.split("\n") if l.strip()]] *)
Definition block_lines (block : str) : list str :=
  map strip (filter (fun l => truthy (strip l)) (split_on "010" block)).

Definition is_option_start (l : str) : bool :=
  is_match (re_match true OPTION_START_RE l).

Definition is_answer_tag (l : str) : bool :=
  startswith (py "answer:") (py_lower l).

Definition is_explanation_tag (l : str) : bool :=
  startswith (py "explanation:") (py_lower l).

(** The question line: [(qnum, question_text)]. *)
Definition question_line (q_line : str) : result (option N * str) :=
  match re_match true QUESTION_RE q_line with
  | Some m =>
      g1 <- group m 1 ;;
      qnum <- py_int g1 ;;
      question_text <- group m 2 ;;
      Ok (Some qnum, question_text)
  | None => Ok (None, q_line)
  end.

(** The loop that lets the question wrap onto further lines. *)
Fixpoint question_loop (fuel : nat) (lines : list str) (question_text : str)
  (idx : nat) : result (str * nat) :=
  match fuel with
  | 0 => Raise OutOfFuel
  | S fuel' =>
      if (idx <? length lines)%nat then
        l <- get lines idx ;;
        if negb (is_option_start l) && negb (is_answer_tag l) then
          question_loop fuel' lines (question_text ++ py " " ++ l) (S idx)
        else Ok (question_text, idx)
      else Ok (question_text, idx)
  end.

(** The inner loop of the options: the text of an option wraps too. *)
Fixpoint option_text_loop (fuel : nat) (lines : list str) (text_part : str)
  (idx : nat) : result (str * nat) :=
  match fuel with
  | 0 => Raise OutOfFuel
  | S fuel' =>
      if (idx <? length lines)%nat then
        l <- get lines idx ;;
        if negb (is_option_start l) && negb (is_answer_tag l)
           && negb (is_explanation_tag l) then
          option_text_loop fuel' lines (text_part ++ py " " ++ l) (S idx)
        else Ok (text_part, idx)
      else Ok (text_part, idx)
  end.

(** The outer loop of the options. *)
Fixpoint options_loop (fuel : nat) (lines : list str) (options : list option_entry)
  (idx : nat) : result (list option_entry * nat) :=
  match fuel with
  | 0 => Raise OutOfFuel
  | S fuel' =>
      if (idx <? length lines)%nat then
        l <- get lines idx ;;
        if is_option_start l then
          line <- get lines idx ;;
          let idx := S idx in
          match re_match true OPTION_RE line with
          | None => options_loop fuel' lines options idx
          | Some m =>
              g1 <- group m 1 ;;
              let letter := py_upper g1 in
              text_part <- group m 2 ;;
              '(text_part, idx) <- option_text_loop (S (length lines)) lines text_part idx ;;
              options_loop fuel' lines (options ++ [mk_option letter text_part]) idx
          end
        else Ok (options, idx)
      else Ok (options, idx)
  end.

(** The scan for the answer tag: [(answer_letter, idx)]. *)
Fixpoint answer_loop (lines : list str) (range : list nat)
  (answer_letter : option str) (idx : nat) : result (option str * nat) :=
  match range with
  | [] => Ok (answer_letter, idx)
  | i :: range' =>
      l <- get lines i ;;
      match re_match true ANSWER_RE l with
      | Some m =>
          g1 <- group m 1 ;;
          Ok (Some (py_upper g1), S i)
      | None => answer_loop lines range' answer_letter idx
      end
  end.

(** The scan for the explanation: [(explanation, explanation_started)]. *)
Fixpoint explanation_loop (lines : list str) (range : list nat)
  (explanation : str) (explanation_started : bool) : result (str * bool) :=
  match range with
  | [] => Ok (explanation, explanation_started)
  | i :: range' =>
      line <- get lines i ;;
      if is_explanation_tag line then
        explanation_loop lines range' (re_sub_empty true EXPLANATION_RE line) true
      else if explanation_started then
        explanation_loop lines range' (explanation ++ py " " ++ line) explanation_started
      else explanation_loop lines range' explanation explanation_started
  end.

(** What the scan of one block has found when it reaches the assembly;
    [options_end] and [answer_end] are the values of [idx] when the options
    loop and the answer scan are over. *)
Record scan : Type := mk_scan {
  qnum : option N;
  question_text : str;
  options : list option_entry;
  options_end : nat;
  answer_letter : option str;
  answer_end : nat;
  explanation : str
}.

Definition scan_lines (lines : list str) : result scan :=
  let idx := 0 in
  q_line <- get lines idx ;;
  let idx := S idx in
  '(qnum, question_text) <- question_line q_line ;;
  '(question_text, idx) <- question_loop (S (length lines)) lines question_text idx ;;
  '(options, idx) <- options_loop (S (length lines)) lines [] idx ;;
  let options_end := idx in
  '(answer_letter, idx) <- answer_loop lines (py_range idx (length lines)) None idx ;;
  let answer_end := idx in
  '(explanation, _) <- explanation_loop lines (py_range idx (length lines)) [] false ;;
  Ok (mk_scan qnum question_text options options_end answer_letter answer_end
              explanation).

Definition answer_truthy (answer_letter : option str) : bool :=
  match answer_letter with
  | Some l => truthy l
  | None => false
  end.

(** The assembly of the record, [None] for a block that is skipped. *)
Definition assemble (sc : scan) (source_name module difficulty : str)
  : option QuestionRecord :=
  if negb (truthy (options sc)) || negb (answer_truthy (answer_letter sc)) then None
  else
    match answer_letter sc with
    | None => None
    | Some answer =>
        let answer_options :=
          map (fun opt => mk_answer (text opt) (str_eqb (letter opt) answer)
                                    (explanation sc))
              (options sc) in
        Some (mk_question (question_text sc) [] answer_options source_name
                          module difficulty (qnum sc))
    end.

(** The body of [for block in blocks]. *)
Definition parse_block (block source_name module difficulty : str)
  : result (option QuestionRecord) :=
  let lines := block_lines block in
  if negb (truthy lines) then Ok None
  else
    sc <- scan_lines lines ;;
    Ok (assemble sc source_name module difficulty).

Fixpoint blocks_loop (blocks : list str) (source_name module difficulty : str)
  (questions : list QuestionRecord) : result (list QuestionRecord) :=
  match blocks with
  | [] => Ok questions
  | block :: blocks' =>
      r <- parse_block block source_name module difficulty ;;
      match r with
      | None => blocks_loop blocks' source_name module difficulty questions
      | Some q_obj =>
          blocks_loop blocks' source_name module difficulty (questions ++ [q_obj])
      end
  end.

Definition parse_quiz_text (text source_name : str) : result (list QuestionRecord) :=
  let questions := [] in
  module <- extract_module source_name ;;
  let difficulty := extract_difficulty source_name in
  let text := strip (replace_crlf text) in
  if negb (truthy text) then Ok questions
  else
    let blocks := re_split false BLOCK_SEP_RE text in
    blocks_loop blocks source_name module difficulty questions.

(** ** Vocabulary of the statements *)

(** A line of text: no line feed in it. *)
Definition one_line (l : str) : bool :=
  forallb (fun c => negb (Ascii.eqb c "010")) l.

(** A line that is neither an option line nor an answer or explanation tag:
    the lines the inner loop of the options appends. *)
Definition plain (l : str) : bool :=
  negb (is_option_start l) && negb (is_answer_tag l) && negb (is_explanation_tag l).

(** Wrapped lines, each appended after a blank. *)
Definition join_wrapped (ls : list str) : str :=
  concat (map (fun l => py " " ++ l) ls).

(** The lines one option is read from, and the option read from them: the
    option line, then the plain lines that follow it. *)
Inductive option_segment : list str -> option_entry -> Prop :=
| option_segment_intro : forall ol conts,
    is_option_start ol = true ->
    Forall (fun l => plain l = true) conts ->
    option_segment (ol :: conts)
      (mk_option (py_upper (firstn 1 ol))
                 (lstrip (skipn 2 ol) ++ join_wrapped conts)).

(** Where the options loop stops: at the end of the block, or on a line that
    is no option line and, once an option has been read, no plain line. *)
Definition stops_options (rest : list str) (options : list option_entry) : Prop :=
  match rest with
  | [] => True
  | l :: _ => is_option_start l = false /\ (options <> [] -> plain l = false)
  end.

(** The explanation as the specification words it: the first explanation
    line, its tag stripped, joined with every line that follows it. *)
Fixpoint explanation_by_spec (ls : list str) : str :=
  match ls with
  | [] => []
  | l :: ls' =>
      if is_explanation_tag l then lstrip (skipn 12 l) ++ join_wrapped ls'
      else explanation_by_spec ls'
  end.

Definition option_letters : list str := [py "A"; py "B"; py "C"; py "D"].

(** [needle] occurs in [s]. *)
Definition Substring (needle s : str) : Prop := exists a b, s = a ++ needle ++ b.

(** The difficulty as the specification words it. *)
Definition difficulty_by_spec (label : str) : str :=
  let lower := py_lower label in
  if contains (py "hard") lower then py "Hard"
  else if contains (py "medium") lower || contains (py "med ") lower then py "Medium"
  else if contains (py "easy") lower then py "Easy"
  else py "Unknown".

(** An occurrence of the module pattern: the keyword in any case, blanks,
    then digits (a leading zero, if any, is the first of [ds]). *)
Definition module_tag (kw ws ds : str) : Prop :=
  (py_lower kw = py "md" \/ py_lower kw = py "mod") /\
  forallb is_space ws = true /\
  ds <> [] /\ forallb is_digit ds = true.



Definition no_digit_ahead (post : str) : Prop :=
  match post with
  | [] => True
  | c :: _ => is_digit c = false
  end.

Definition correct_count (q : QuestionRecord) : nat :=
  length (filter isCorrect (answerOptions q)).

Definition letter_count (a : str) (opts : list option_entry) : nat :=
  length (filter (fun o => str_eqb (letter o) a) opts).

(** The tail [0?(\d+)] of the module pattern. *)
Definition module_tail : regex := Opt (Lit "0") ;;; Group (Plus Digit).

(** ** A declarative reading of the matcher *)

(** [run ic r pos s caps p t cs]: from offset [pos] with [s] ahead and groups
    [caps], the pattern [r] can consume a prefix of [s] and leave offset [p],
    text [t] and groups [cs]. *)
Inductive run (ic : bool) : regex -> nat -> str -> list str -> nat -> str -> list str -> Prop :=
| run_eps : forall pos s caps, run ic Eps pos s caps pos s caps
| run_one : forall i c pos s caps,
    item_matches ic i c = true -> run ic (One i) pos (c :: s) caps (S pos) s caps
| run_star_stop : forall i pos s caps, run ic (Star i) pos s caps pos s caps
| run_star_more : forall i c pos s caps p t cs,
    item_matches ic i c = true ->
    run ic (Star i) (S pos) s caps p t cs ->
    run ic (Star i) pos (c :: s) caps p t cs
| run_plus : forall i c pos s caps p t cs,
    item_matches ic i c = true ->
    run ic (Star i) (S pos) s caps p t cs ->
    run ic (Plus i) pos (c :: s) caps p t cs
| run_opt_skip : forall i pos s caps, run ic (Opt i) pos s caps pos s caps
| run_opt_take : forall i c pos s caps,
    item_matches ic i c = true -> run ic (Opt i) pos (c :: s) caps (S pos) s caps
| run_seq : forall r1 r2 pos s caps p1 t1 cs1 p t cs,
    run ic r1 pos s caps p1 t1 cs1 ->
    run ic r2 p1 t1 cs1 p t cs ->
    run ic (Seq r1 r2) pos s caps p t cs
| run_alt_l : forall r1 r2 pos s caps p t cs,
    run ic r1 pos s caps p t cs -> run ic (Alt r1 r2) pos s caps p t cs
| run_alt_r : forall r1 r2 pos s caps p t cs,
    run ic r2 pos s caps p t cs -> run ic (Alt r1 r2) pos s caps p t cs
| run_group : forall r pos s caps p t cs,
    run ic r pos s caps p t cs ->
    run ic (Group r) pos s caps p t (cs ++ [firstn (p - pos) s])
| run_ahead : forall r pos s caps p t cs,
    run ic r pos s caps p t cs -> run ic (Ahead r) pos s caps pos s cs
| run_bos : forall s caps, run ic Bos 0 s caps 0 s caps
| run_eos_end : forall pos caps, run ic Eos pos [] caps pos [] caps
| run_eos_nl : forall pos caps, run ic Eos pos ["010"%char] caps pos ["010"%char] caps.


(** ** Sample inputs *)

Definition nl : str := ["010"%char].

(** [lines] joined by line feeds. *)
Fixpoint unlines (lines : list str) : str :=
  match lines with
  | [] => []
  | [l] => l
  | l :: ls => l ++ nl ++ unlines ls
  end.

(** Example 1 of the specification. *)
Definition arithmetic_block : str :=
  unlines [py "Q1. What is 2+2?"; py "   A. 3"; py "   B. 4"; py "   C. 5";
           py "   D. 6"; []; py "   Answer: B"; py "   Explanation: Basic arithmetic."].

(** The record it yields under the empty label. *)
Definition arithmetic_record : QuestionRecord :=
  mk_question (py "What is 2+2?") []
    [mk_answer (py "3") false (py "Basic arithmetic.");
     mk_answer (py "4") true (py "Basic arithmetic.");
     mk_answer (py "5") false (py "Basic arithmetic.");
     mk_answer (py "6") false (py "Basic arithmetic.")]
    [] (py "Other") (py "Unknown") (Some 1%N).

(** The answer names a letter that no option carries. *)
Definition unmatched_answer_block : str :=
  unlines [py "Q1. q"; py "A. x"; py "Answer: B"].

(** Five option lines, the letter A twice. *)
Definition repeated_letter_block : str :=
  unlines [py "Q1. q"; py "A. a"; py "B. b"; py "C. c"; py "D. d"; py "A. e";
           py "Answer: A"].

(** Two lines carry the explanation tag. *)
Definition two_explanations_block : str :=
  unlines [py "Q1. q"; py "A. x"; py "Answer: A"; py "Explanation: one";
           py "Explanation: two"; py "more"].

(** A plain line after an explanation tag, before the answer tag. *)
Definition stray_line_block : str :=
  unlines [py "Q1. q"; py "A. x"; py "wrapped"; py "Explanation: e"; py "stray";
           py "Answer: A"].

(** Options, and no answer line. *)
Definition no_answer_block : str :=
  unlines [py "Q1. q"; py "A. x"; py "B. y"; py "Explanation: none"].

(** ** Vocabulary of the further properties *)

(** The records a block contributes. *)
Definition emitted (r : option QuestionRecord) : list QuestionRecord :=
  match r with
  | Some q => [q]
  | None => []
  end.

(** The blocks the text is cut into. *)
Definition blocks_of (text : str) : list str :=
  re_split false BLOCK_SEP_RE (strip (replace_crlf text)).

(** A block that opens with a question marker: Q, digits, a period. *)
Definition question_marked (b : str) : Prop :=
  exists ds rest,
    b = "Q"%char :: ds ++ "."%char :: rest /\ ds <> [] /\ forallb is_digit ds = true.

(** The characters of [s] that are not blanks. *)
Definition non_blank (s : str) : str := filter (fun c => negb (is_space c)) s.

(** A line the question loop appends to the question. *)
Definition continues_question (l : str) : bool :=
  negb (is_option_start l) && negb (is_answer_tag l).

(** Two blocks and a blank third one, under a label. *)
Definition two_question_text : str :=
  unlines [py "Q1. first"; py "A. x"; py "Answer: A"; [];
           py "Q2. second"; py "wraps"; py "a. y"; py "b. z"; py "note";
           py "ANSWER:   b"; py "Answer: A"; py "Explanation: because"].

(** The records it yields under the label "mod 07 hard". *)
Definition two_question_records : list QuestionRecord :=
  [mk_question (py "first") [] [mk_answer (py "x") true []]
     (py "mod 07 hard") (py "MD7") (py "Hard") (Some 1%N);
   mk_question (py "second wraps") []
     [mk_answer (py "y") false (py "because");
      mk_answer (py "z note") true (py "because")]
     (py "mod 07 hard") (py "MD7") (py "Hard") (Some 2%N)].

(** A note after the answer line, with no explanation tag. *)
Definition untagged_note_block : str :=
  unlines [py "Q1. q"; py "A. x"; py "Answer: A"; py "see chapter 2"].

Definition untagged_note_scan : scan :=
  mk_scan (Some 1%N) (py "q") [mk_option (py "A") (py "x")] 2 (Some (py "A")) 3 [].

Definition unmatched_answer_scan : scan :=
  mk_scan (Some 1%N) (py "q") [mk_option (py "A") (py "x")] 2 (Some (py "B")) 3 [].

(** A line that opens with a question number: Q or q, the digits [ds], a
    period, then [r]. *)
Definition numbered_line (l : str) (ds r : str) : Prop :=
  exists q, l = q :: ds ++ "."%char :: r /\ (q = "Q"%char \/ q = "q"%char) /\
            ds <> [] /\ forallb is_digit ds = true.


(** A wrapped question, and what the scan makes of it. *)
Definition wrapped_question_block : str :=
  unlines [py "q12.   Which one"; py "is it?"; py "really"; py "B. this"; py "Answer: B"].

Definition wrapped_question_scan : scan :=
  mk_scan (Some 12%N) (py "Which one is it? really") [mk_option (py "B") (py "this")]
    4 (Some (py "B")) 5 [].





(** The text with every line feed turned into carriage return, line feed. *)
Fixpoint to_crlf (s : str) : str :=
  match s with
  | [] => []
  | c :: s' =>
      if Ascii.eqb c "010" then "013"%char :: "010"%char :: to_crlf s'
      else c :: to_crlf s'
  end.

Definition no_cr (s : str) : bool := forallb (fun c => negb (Ascii.eqb c "013")) s.
(** * Properties *)

(** ** The matcher *)

Lemma orelse_some {A : Type} (a b : option A) (x : A) :
  orelse a b = Some x -> a = Some x \/ (a = None /\ b = Some x).
Proof. destruct a; simpl; intros H; [left | right]; auto. Qed.

Lemma star_sound (ic : bool) (i : item) (s : str) :
  forall pos caps k res,
    star ic i pos s caps k = Some res ->
    exists p t, run ic (Star i) pos s caps p t caps /\ k p t caps = Some res.
Proof.
  induction s as [|c s IH]; intros pos caps k res H; simpl in H.
  - exists pos, []. split; [constructor | exact H].
  - destruct (item_matches ic i c) eqn:Hc.
    + apply orelse_some in H. destruct H as [H | [_ H]].
      * apply IH in H. destruct H as (p & t & Hr & Hk).
        exists p, t. split; [eapply run_star_more; eauto | exact Hk].
      * exists pos, (c :: s). split; [constructor | exact H].
    + exists pos, (c :: s). split; [constructor | exact H].
Qed.

Lemma rmatch_sound (ic : bool) (r : regex) :
  forall pos s caps k res,
    rmatch ic r pos s caps k = Some res ->
    exists p t cs, run ic r pos s caps p t cs /\ k p t cs = Some res.
Proof.
  induction r as [| i | i | i | i | r1 IH1 r2 IH2 | r1 IH1 r2 IH2 | r IH | r IH | |];
    intros pos s caps k res H; simpl in H.
  - exists pos, s, caps. split; [constructor | exact H].
  - destruct s as [|c s]; [discriminate|].
    destruct (item_matches ic i c) eqn:Hc; [|discriminate].
    exists (S pos), s, caps. split; [constructor; exact Hc | exact H].
  - apply star_sound in H. destruct H as (p & t & Hr & Hk). eauto.
  - destruct s as [|c s]; [discriminate|].
    destruct (item_matches ic i c) eqn:Hc; [|discriminate].
    apply star_sound in H. destruct H as (p & t & Hr & Hk).
    exists p, t, caps. split; [eapply run_plus; eauto | exact Hk].
  - destruct s as [|c s].
    + exists pos, [], caps. split; [constructor | exact H].
    + destruct (item_matches ic i c) eqn:Hc.
      * apply orelse_some in H. destruct H as [H | [_ H]].
        -- exists (S pos), s, caps. split; [apply run_opt_take; exact Hc | exact H].
        -- exists pos, (c :: s), caps. split; [constructor | exact H].
      * exists pos, (c :: s), caps. split; [constructor | exact H].
  - apply IH1 in H. destruct H as (p1 & t1 & cs1 & Hr1 & H).
    apply IH2 in H. destruct H as (p & t & cs & Hr2 & H).
    exists p, t, cs. split; [eapply run_seq; eauto | exact H].
  - apply orelse_some in H. destruct H as [H | [_ H]].
    + apply IH1 in H. destruct H as (p & t & cs & Hr & H).
      exists p, t, cs. split; [apply run_alt_l; exact Hr | exact H].
    + apply IH2 in H. destruct H as (p & t & cs & Hr & H).
      exists p, t, cs. split; [apply run_alt_r; exact Hr | exact H].
  - apply IH in H. destruct H as (p & t & cs & Hr & H).
    exists p, t, (cs ++ [firstn (p - pos) s]). split; [constructor; exact Hr | exact H].
  - destruct (rmatch ic r pos s caps (fun p _ cs => Some (p, cs))) as [[p' cs']|] eqn:Hm;
      [|discriminate].
    apply IH in Hm. destruct Hm as (p & t & cs & Hr & Hk). inversion Hk; subst.
    exists pos, s, cs'. split; [eapply run_ahead; eauto | exact H].
  - destruct (pos =? 0)%nat eqn:Hp; [|discriminate].
    apply Nat.eqb_eq in Hp. subst. exists 0, s, caps. split; [constructor | exact H].
  - destruct s as [|c s].
    + exists pos, [], caps. split; [constructor | exact H].
    + destruct s; [|destruct c as [[] [] [] [] [] [] [] []]; discriminate].
      destruct c as [[] [] [] [] [] [] [] []]; try discriminate.
      exists pos, ["010"%char], caps. split; [constructor | exact H].
Qed.

Lemma run_consumes (ic : bool) (r : regex) pos s caps p t cs :
  run ic r pos s caps p t cs ->
  exists w, s = w ++ t /\ p = pos + length w.
Proof.
  induction 1;
    try (exists []; split; [reflexivity | simpl; lia]).
  - exists [c]. split; [reflexivity | simpl; lia].
  - destruct IHrun as (w & -> & ->). exists (c :: w). split; [reflexivity | simpl; lia].
  - destruct IHrun as (w & -> & ->). exists (c :: w). split; [reflexivity | simpl; lia].
  - exists [c]. split; [reflexivity | simpl; lia].
  - destruct IHrun1 as (w1 & -> & ->). destruct IHrun2 as (w2 & -> & ->).
    exists (w1 ++ w2). split; [now rewrite app_assoc | rewrite length_app; lia].
  - exact IHrun.
  - exact IHrun.
  - exact IHrun.
Qed.

Lemma run_star_inv (ic : bool) (i : item) pos s caps p t cs :
  run ic (Star i) pos s caps p t cs ->
  cs = caps /\
  exists w, s = w ++ t /\ p = pos + length w /\ forallb (item_matches ic i) w = true.
Proof.
  intros H. remember (Star i) as r eqn:Hr.
  induction H; try discriminate; inversion Hr; subst.
  - split; [reflexivity|]. exists []. repeat split; simpl; lia.
  - destruct (IHrun eq_refl) as (-> & w & -> & -> & Hw).
    split; [reflexivity|]. exists (c :: w). repeat split; simpl; [lia|].
    now rewrite H, Hw.
Qed.

Lemma run_plus_inv (ic : bool) (i : item) pos s caps p t cs :
  run ic (Plus i) pos s caps p t cs ->
  cs = caps /\
  exists w, w <> [] /\ s = w ++ t /\ p = pos + length w /\
            forallb (item_matches ic i) w = true.
Proof.
  intros H. inversion H; subst.
  match goal with Hs : run _ (Star _) _ _ _ _ _ _ |- _ =>
    apply run_star_inv in Hs; destruct Hs as (-> & w & -> & -> & Hw) end.
  split; [reflexivity|]. exists (c :: w). repeat split; simpl; try lia; [discriminate|].
  match goal with Hc : item_matches _ _ _ = true |- _ => now rewrite Hc, Hw end.
Qed.

Lemma firstn_consumed (w t : str) (n : nat) :
  n = length w -> firstn n (w ++ t) = w.
Proof.
  intros ->. replace (length w) with (length w + 0) by lia.
  rewrite firstn_app_2. simpl. now rewrite app_nil_r.
Qed.

(** Inversion of a run of a concrete pattern, one constructor at a time. *)
Ltac run_inv :=
  repeat match goal with
  | H : run _ (Seq _ _) _ _ _ _ _ _ |- _ => inversion H; subst; clear H
  | H : run _ (One _) _ _ _ _ _ _ |- _ => inversion H; subst; clear H
  | H : run _ Eps _ _ _ _ _ _ |- _ => inversion H; subst; clear H
  | H : run _ Bos _ _ _ _ _ _ |- _ => inversion H; subst; clear H
  | H : run _ (Group _) _ _ _ _ _ _ |- _ => inversion H; subst; clear H
  | H : run _ Eos _ _ _ _ _ _ |- _ => inversion H; subst; clear H
  | H : run _ (Alt _ _) _ _ _ _ _ _ |- _ => inversion H; subst; clear H
  | H : run _ (Opt _) _ _ _ _ _ _ |- _ => inversion H; subst; clear H
  | H : run _ (Star _) _ _ _ _ _ _ |- _ =>
      apply run_star_inv in H; destruct H as (-> & ? & -> & -> & ?)
  | H : run _ (Plus _) _ _ _ _ _ _ |- _ =>
      apply run_plus_inv in H; destruct H as (-> & ? & ? & -> & -> & ?)
  end.

Lemma firstn_one (c : ascii) (s : str) (p : nat) :
  firstn (S p - p) (c :: s) = [c].
Proof. replace (S p - p) with 1 by lia. reflexivity. Qed.

Ltac firstn_simpl :=
  repeat match goal with
  | |- context [firstn (S ?p - ?p) (?c :: ?s)] => rewrite (firstn_one c s p)
  | |- context [firstn ?n (?w ++ ?t)] =>
      rewrite (firstn_consumed w t n) by (simpl; lia)
  end.

Lemma question_re_groups (l : str) (m : nat * list str) :
  re_match true QUESTION_RE l = Some m ->
  exists ds g, snd m = [ds; g] /\ ds <> [] /\ forallb is_digit ds = true.
Proof.
  unfold re_match. intros H. apply rmatch_sound in H.
  destruct H as (p & t & cs & Hr & Hk). inversion Hk; subst; clear Hk.
  unfold QUESTION_RE in Hr. run_inv;
    (firstn_simpl; simpl; eexists _, _; split; [reflexivity|]; split; assumption).
Qed.

Lemma answer_re_groups (l : str) (m : nat * list str) :
  re_match true ANSWER_RE l = Some m ->
  exists c, snd m = [[c]] /\ item_matches true (Range "A" "D") c = true.
Proof.
  unfold re_match. intros H. apply rmatch_sound in H.
  destruct H as (p & t & cs & Hr & Hk). inversion Hk; subst; clear Hk.
  unfold ANSWER_RE in Hr. simpl word in Hr. run_inv.
  firstn_simpl; simpl. eexists; split; [reflexivity|]; assumption.
Qed.



(** ** Exceptions and strings *)

Lemma bind_ok {A B : Type} (m : result A) (f : A -> result B) (b : B) :
  bind m f = Ok b -> exists a, m = Ok a /\ f a = Ok b.
Proof. destruct m; simpl; intros H; [eauto | discriminate]. Qed.

Lemma take_drop_while (p : ascii -> bool) (s : str) :
  take_while p s ++ drop_while p s = s.
Proof.
  induction s as [|c s IH]; simpl; [reflexivity|].
  destruct (p c); simpl; [now rewrite IH | reflexivity].
Qed.

Lemma skipn_take_while (p : ascii -> bool) (s : str) :
  skipn (length (take_while p s)) s = drop_while p s.
Proof.
  induction s as [|c s IH]; simpl; [reflexivity|].
  destruct (p c); simpl; [exact IH | reflexivity].
Qed.

Lemma star_take (ic : bool) (i : item) (s : str) :
  forall pos caps k x,
    k (pos + length (take_while (item_matches ic i) s))
      (drop_while (item_matches ic i) s) caps = Some x ->
    star ic i pos s caps k = Some x.
Proof.
  induction s as [|c s IH]; intros pos caps k x H; simpl in *.
  - now rewrite Nat.add_0_r in H.
  - destruct (item_matches ic i c); simpl in H.
    + rewrite (IH (S pos) caps k x); [reflexivity|].
      now replace (S pos + length (take_while (item_matches ic i) s))
        with (pos + S (length (take_while (item_matches ic i) s))) by lia.
    + now rewrite Nat.add_0_r in H.
Qed.

Lemma take_while_all (p : ascii -> bool) (s : str) :
  forallb p s = true -> take_while p s = s /\ drop_while p s = [].
Proof.
  induction s as [|c s IH]; simpl; [auto|].
  destruct (p c); simpl; [|discriminate].
  intros H. destruct (IH H) as [-> ->]. auto.
Qed.

Lemma lit_dot (c : ascii) : item_matches true (Lit ".") c = true -> c = "."%char.
Proof.
  destruct c as [[] [] [] [] [] [] [] []]; vm_compute; intros H;
    try discriminate; reflexivity.
Qed.

Lemma range_AD (c : ascii) :
  item_matches true (Range "A" "D") c = true ->
  In (py_upper [c]) [py "A"; py "B"; py "C"; py "D"].
Proof.
  destruct c as [[] [] [] [] [] [] [] []]; vm_compute; intros H;
    try discriminate; tauto.
Qed.

(** A line of a block holds no line feed. *)
Lemma is_option_start_inv (l : str) :
  is_option_start l = true ->
  exists c rest, l = c :: "."%char :: rest /\
                 item_matches true (Range "A" "D") c = true.
Proof.
  unfold is_option_start, re_match, OPTION_START_RE. cbn [rmatch Nat.eqb].
  destruct l as [|c [|d rest]]; cbn [rmatch]; try discriminate.
  - destruct (item_matches true (Range "A" "D") c); discriminate.
  - destruct (item_matches true (Range "A" "D") c) eqn:Hc; [|discriminate].
    destruct (item_matches true (Lit ".") d) eqn:Hd; [|discriminate].
    apply lit_dot in Hd. subst. eauto.
Qed.

Lemma option_re_exact (c : ascii) (rest : str) :
  item_matches true (Range "A" "D") c = true ->
  forallb (item_matches true Any) rest = true ->
  exists e, re_match true OPTION_RE (c :: "."%char :: rest)
            = Some (e, [[c]; lstrip rest]).
Proof.
  intros Hc Hnl. unfold re_match, OPTION_RE. cbn [rmatch Nat.eqb]. rewrite Hc.
  replace (item_matches true (Lit ".") "."%char) with true by reflexivity.
  eexists. apply star_take. cbn [rmatch]. apply star_take.
  assert (Hl : forallb (item_matches true Any) (drop_while (item_matches true Space) rest) = true).
  { rewrite <- (take_drop_while (item_matches true Space) rest) in Hnl.
    rewrite forallb_app in Hnl. apply andb_true_iff in Hnl. tauto. }
  destruct (take_while_all _ _ Hl) as [Ht Hd]. rewrite Ht, Hd.
  cbn [rmatch final]. firstn_simpl. rewrite firstn_all2 by lia. reflexivity.
Qed.

(** ** The lines of a block *)

Lemma forallb_drop_while (p q : ascii -> bool) (s : str) :
  forallb q s = true -> forallb q (drop_while p s) = true.
Proof.
  induction s as [|c s IH]; simpl; [auto|].
  intros H. destruct (p c); [|exact H].
  apply andb_true_iff in H. tauto.
Qed.

Lemma forallb_rev (q : ascii -> bool) (s : str) :
  forallb q (rev s) = forallb q s.
Proof.
  induction s as [|c s IH]; simpl; [reflexivity|].
  rewrite forallb_app, IH. simpl. rewrite andb_true_r. apply andb_comm.
Qed.

Lemma strip_one_line (l : str) : one_line l = true -> one_line (strip l) = true.
Proof.
  unfold one_line, strip, rstrip, lstrip. intros H.
  rewrite forallb_rev. apply forallb_drop_while. rewrite forallb_rev.
  now apply forallb_drop_while.
Qed.

Lemma split_on_one_line (s : str) :
  Forall (fun l => one_line l = true) (split_on "010" s).
Proof.
  induction s as [|c s IH]; simpl.
  - repeat constructor.
  - destruct (Ascii.eqb c "010") eqn:Hc.
    + constructor; [reflexivity | exact IH].
    + destruct (split_on "010" s) as [|l ls].
      * repeat constructor. simpl. now rewrite Hc.
      * inversion IH; subst. constructor; [|assumption].
        unfold one_line in *. simpl. now rewrite Hc.
Qed.

Lemma block_lines_one_line (block : str) :
  Forall (fun l => one_line l = true) (block_lines block).
Proof.
  unfold block_lines. apply Forall_map. apply Forall_forall.
  intros l Hl. apply filter_In in Hl. destruct Hl as [Hl _].
  apply strip_one_line.
  exact (proj1 (Forall_forall _ _) (split_on_one_line block) l Hl).
Qed.

(** ** The loops *)

Lemma get_skipn (lines : list str) (a : nat) (l : str) (rest : list str) :
  skipn a lines = l :: rest -> get lines a = Ok l /\ skipn (S a) lines = rest.
Proof.
  intros H. split.
  - unfold get. rewrite <- hd_error_skipn, H. reflexivity.
  - replace (S a) with (1 + a) by lia. rewrite <- skipn_skipn, H. reflexivity.
Qed.

Lemma skipn_lt (lines : list str) (a : nat) (l : str) (rest : list str) :
  skipn a lines = l :: rest -> a < length lines.
Proof.
  intros H. assert (Hl := length_skipn a lines). rewrite H in Hl. simpl in Hl. lia.
Qed.

Lemma skipn_nil_ge (lines : list str) (a : nat) :
  skipn a lines = [] -> length lines <= a.
Proof. intros H. now apply skipn_all_iff. Qed.

Lemma join_wrapped_cons (l : str) (ls : list str) :
  join_wrapped (l :: ls) = (py " " ++ l) ++ join_wrapped ls.
Proof. reflexivity. Qed.

Lemma question_loop_spec (lines : list str) :
  forall fuel question_text idx,
    length lines - idx < fuel ->
    exists conts rest,
      skipn idx lines = conts ++ rest /\
      question_loop fuel lines question_text idx
        = Ok (question_text ++ join_wrapped conts, idx + length conts).
Proof.
  induction fuel as [|fuel IH]; intros qt idx Hf; [lia|].
  cbn [question_loop]. destruct (skipn idx lines) as [|l rest] eqn:Hs.
  - apply skipn_nil_ge in Hs.
    replace (idx <? length lines)%nat with false by (symmetry; apply Nat.ltb_ge; lia).
    exists [], []. split; [reflexivity|]. simpl. now rewrite app_nil_r, Nat.add_0_r.
  - assert (Hlt := skipn_lt _ _ _ _ Hs). apply get_skipn in Hs. destruct Hs as [Hg Hs].
    replace (idx <? length lines)%nat with true by (symmetry; apply Nat.ltb_lt; lia).
    rewrite Hg. cbn [bind].
    destruct (negb (is_option_start l) && negb (is_answer_tag l)).
    + destruct (IH (qt ++ py " " ++ l) (S idx)) as (conts & rest' & Hs' & Hq); [lia|].
      exists (l :: conts), rest'. split.
      * rewrite Hs in Hs'. simpl. now rewrite Hs'.
      * rewrite Hq, join_wrapped_cons. f_equal. f_equal.
        -- now rewrite <- !app_assoc.
        -- simpl. lia.
    + exists [], (l :: rest). split; [reflexivity|].
      simpl. now rewrite app_nil_r, Nat.add_0_r.
Qed.

Lemma option_text_loop_spec (lines : list str) :
  forall fuel text_part idx,
    length lines - idx < fuel ->
    exists conts rest,
      skipn idx lines = conts ++ rest /\
      option_text_loop fuel lines text_part idx
        = Ok (text_part ++ join_wrapped conts, idx + length conts) /\
      Forall (fun l => plain l = true) conts /\
      match rest with [] => True | l :: _ => plain l = false end.
Proof.
  induction fuel as [|fuel IH]; intros tp idx Hf; [lia|].
  cbn [option_text_loop]. destruct (skipn idx lines) as [|l rest] eqn:Hs.
  - apply skipn_nil_ge in Hs.
    replace (idx <? length lines)%nat with false by (symmetry; apply Nat.ltb_ge; lia).
    exists [], []. repeat split; [|constructor].
    simpl. now rewrite app_nil_r, Nat.add_0_r.
  - assert (Hlt := skipn_lt _ _ _ _ Hs). apply get_skipn in Hs. destruct Hs as [Hg Hs].
    replace (idx <? length lines)%nat with true by (symmetry; apply Nat.ltb_lt; lia).
    rewrite Hg. cbn [bind]. fold (plain l).
    destruct (plain l) eqn:Hp.
    + destruct (IH (tp ++ py " " ++ l) (S idx)) as (conts & rest' & Hs' & Hq & Hc & Hr); [lia|].
      exists (l :: conts), rest'. repeat split.
      * rewrite Hs in Hs'. simpl. now rewrite Hs'.
      * rewrite Hq, join_wrapped_cons. f_equal. f_equal.
        -- now rewrite <- !app_assoc.
        -- simpl. lia.
      * constructor; assumption.
      * exact Hr.
    + exists [], (l :: rest). repeat split; [|constructor|exact Hp].
      simpl. now rewrite app_nil_r, Nat.add_0_r.
Qed.

Lemma plain_not_option_start (l : str) : plain l = true -> is_option_start l = false.
Proof.
  unfold plain. destruct (is_option_start l); [discriminate | reflexivity].
Qed.

Lemma options_loop_spec (lines : list str) :
  Forall (fun l => one_line l = true) lines ->
  forall fuel options idx,
    length lines - idx < fuel ->
    exists segs new rest,
      skipn idx lines = concat segs ++ rest /\
      options_loop fuel lines options idx
        = Ok (options ++ new, idx + length (concat segs)) /\
      Forall2 option_segment segs new /\
      match rest with
      | [] => True
      | l :: _ => is_option_start l = false /\ (new <> [] -> plain l = false)
      end.
Proof.
  intros Hone. induction fuel as [|fuel IH]; intros opts idx Hf; [lia|].
  cbn [options_loop]. destruct (skipn idx lines) as [|l rest] eqn:Hs.
  - apply skipn_nil_ge in Hs.
    replace (idx <? length lines)%nat with false by (symmetry; apply Nat.ltb_ge; lia).
    exists [], [], []. repeat split; [|constructor].
    simpl. now rewrite app_nil_r, Nat.add_0_r.
  - assert (Hlt := skipn_lt _ _ _ _ Hs).
    assert (Hin : In l lines).
    { apply (nth_error_In lines idx). rewrite <- hd_error_skipn, Hs. reflexivity. }
    apply get_skipn in Hs. destruct Hs as [Hg Hs].
    replace (idx <? length lines)%nat with true by (symmetry; apply Nat.ltb_lt; lia).
    rewrite Hg. cbn [bind].
    destruct (is_option_start l) eqn:Hopt.
    + destruct (is_option_start_inv l Hopt) as (c & rest0 & -> & Hc).
      assert (Hnl : forallb (item_matches true Any) rest0 = true).
      { pose proof (proj1 (Forall_forall _ _) Hone _ Hin) as H1.
        unfold one_line in H1. cbn [forallb] in H1.
        apply andb_true_iff in H1. destruct H1 as [_ H1].
        apply andb_true_iff in H1. destruct H1 as [_ H1]. exact H1. }
      destruct (option_re_exact c rest0 Hc Hnl) as (e & ->).
      cbn [group snd nth_error Nat.sub bind].
      destruct (option_text_loop_spec lines (S (length lines)) (lstrip rest0) (S idx))
        as (conts & rest1 & Hs1 & -> & Hplain & Hstop); [lia|].
      cbn [bind].
      assert (Hlen : S idx + length conts <= length lines).
      { assert (Hl := length_skipn (S idx) lines). rewrite Hs1, length_app in Hl. lia. }
      assert (Hs2 : skipn (S idx + length conts) lines = rest1).
      { rewrite (Nat.add_comm (S idx)), <- skipn_skipn, Hs1.
        rewrite skipn_app, skipn_all, Nat.sub_diag. reflexivity. }
      destruct (IH (opts ++ [mk_option (py_upper [c]) (lstrip rest0 ++ join_wrapped conts)])
                   (S idx + length conts))
        as (segs & new & rest2 & Hs3 & -> & Hsegs & Hstop2); [lia|].
      rewrite Hs2 in Hs3.
      exists (((c :: "."%char :: rest0) :: conts) :: segs),
             (mk_option (py_upper [c]) (lstrip rest0 ++ join_wrapped conts) :: new), rest2.
      repeat split.
      * rewrite Hs in Hs1. rewrite concat_cons. simpl.
        rewrite Hs1, Hs3, <- !app_assoc. reflexivity.
      * f_equal. f_equal; [now rewrite <- app_assoc|].
        rewrite concat_cons, length_app. simpl. unfold str in *. lia.
      * constructor; [|exact Hsegs].
        exact (option_segment_intro (c :: "."%char :: rest0) conts Hopt Hplain).
      * destruct rest2 as [|l2 rest2]; [exact I|].
        destruct Hstop2 as [Hno Hpl]. split; [exact Hno|]. intros _.
        destruct new as [|o new].
        -- destruct segs; [|inversion Hsegs].
           simpl in Hs3. rewrite Hs3 in Hstop. exact Hstop.
        -- apply Hpl. discriminate.
    + exists [], [], (l :: rest). repeat split; [| constructor | exact Hopt | congruence].
      simpl. now rewrite app_nil_r, Nat.add_0_r.
Qed.

Lemma answer_loop_spec (lines : list str) :
  forall seg a idx0,
    skipn a lines = seg ->
    (Forall (fun l => re_match true ANSWER_RE l = None) seg /\
     answer_loop lines (seq a (length seg)) None idx0 = Ok (None, idx0)) \/
    (exists pre l post e c,
        seg = pre ++ l :: post /\
        Forall (fun l => re_match true ANSWER_RE l = None) pre /\
        re_match true ANSWER_RE l = Some (e, [[c]]) /\
        item_matches true (Range "A" "D") c = true /\
        answer_loop lines (seq a (length seg)) None idx0
          = Ok (Some (py_upper [c]), S (a + length pre))).
Proof.
  induction seg as [|l seg IH]; intros a idx0 Hs.
  - left. split; [constructor | reflexivity].
  - apply get_skipn in Hs. destruct Hs as [Hg Hs].
    cbn [length seq answer_loop]. rewrite Hg. cbn [bind].
    destruct (re_match true ANSWER_RE l) as [m|] eqn:Hm.
    + right. destruct (answer_re_groups l m Hm) as (c & Hc & Hr).
      destruct m as [e cs]. simpl in Hc. subst cs.
      exists [], l, seg, e, c. repeat split; try assumption; [constructor|].
      cbn [group snd nth_error Nat.sub bind length]. now rewrite Nat.add_0_r.
    + destruct (IH (S a) idx0 Hs) as [[Hall Hr] | (pre & l' & post & e & c & -> & Hpre & Hl' & Hc & Hr)].
      * left. split; [constructor; assumption | exact Hr].
      * right. exists (l :: pre), l', post, e, c.
        repeat split; try assumption; [constructor; assumption|].
        rewrite Hr. simpl. repeat f_equal. lia.
Qed.

Lemma explanation_loop_ok (lines : list str) :
  forall seg rest a e st,
    skipn a lines = seg ++ rest ->
    exists e' st', explanation_loop lines (seq a (length seg)) e st = Ok (e', st').
Proof.
  induction seg as [|l seg IH]; intros rest a e st Hs.
  - simpl. eauto.
  - apply get_skipn in Hs. destruct Hs as [Hg Hs].
    cbn [length seq explanation_loop]. rewrite Hg. cbn [bind].
    destruct (is_explanation_tag l); [|destruct st]; eapply IH; eassumption.
Qed.

Lemma explanation_loop_plain (lines : list str) :
  forall post rest a e,
    skipn a lines = post ++ rest ->
    Forall (fun l => is_explanation_tag l = false) post ->
    explanation_loop lines (seq a (length post)) e true
      = Ok (e ++ join_wrapped post, true).
Proof.
  induction post as [|l post IH]; intros rest a e Hs Hall.
  - simpl. now rewrite app_nil_r.
  - apply get_skipn in Hs. destruct Hs as [Hg Hs]. inversion Hall; subst.
    cbn [length seq explanation_loop]. rewrite Hg. cbn [bind].
    match goal with H : is_explanation_tag l = false |- _ => rewrite H end.
    rewrite (IH rest (S a) _ Hs) by assumption.
    rewrite join_wrapped_cons. now rewrite <- !app_assoc.
Qed.

Lemma explanation_loop_none (lines : list str) :
  forall seg rest a,
    skipn a lines = seg ++ rest ->
    Forall (fun l => is_explanation_tag l = false) seg ->
    explanation_loop lines (seq a (length seg)) [] false = Ok ([], false).
Proof.
  induction seg as [|l seg IH]; intros rest a Hs Hall.
  - reflexivity.
  - apply get_skipn in Hs. destruct Hs as [Hg Hs]. inversion Hall; subst.
    cbn [length seq explanation_loop]. rewrite Hg. cbn [bind].
    match goal with H : is_explanation_tag l = false |- _ => rewrite H end.
    eapply IH; eassumption.
Qed.

Lemma explanation_loop_last (lines : list str) :
  forall pre tagline post a e st,
    skipn a lines = pre ++ tagline :: post ->
    is_explanation_tag tagline = true ->
    Forall (fun l => is_explanation_tag l = false) post ->
    explanation_loop lines (seq a (length (pre ++ tagline :: post))) e st
      = Ok (re_sub_empty true EXPLANATION_RE tagline ++ join_wrapped post, true).
Proof.
  induction pre as [|l pre IH]; intros tagline post a e st Hs Htag Hall.
  - simpl app in *. apply get_skipn in Hs. destruct Hs as [Hg Hs].
    cbn [length seq explanation_loop]. rewrite Hg. cbn [bind]. rewrite Htag.
    apply (explanation_loop_plain lines post [] (S a)); [|exact Hall].
    now rewrite app_nil_r.
  - simpl app in *. apply get_skipn in Hs. destruct Hs as [Hg Hs].
    cbn [length seq explanation_loop]. rewrite Hg. cbn [bind].
    destruct (is_explanation_tag l); [|destruct st]; apply IH; assumption.
Qed.

(** ** Cutting matches out of a string *)

Lemma star_final (ic : bool) (i : item) (s : str) (pos : nat) (caps : list str) :
  star ic i pos s caps final
  = Some (pos + length (take_while (item_matches ic i) s), caps).
Proof. apply star_take. reflexivity. Qed.

Lemma rmatch_word (w : str) :
  (forall c, In c w -> lower_char c = c) ->
  forall l pos caps k,
    startswith w (py_lower l) = true ->
    rmatch true (word w) pos l caps k = k (pos + length w) (skipn (length w) l) caps.
Proof.
  induction w as [|x w IH]; intros Hw l pos caps k H.
  - simpl. now rewrite Nat.add_0_r.
  - destruct l as [|c l]; [discriminate|].
    simpl in H. apply andb_true_iff in H. destruct H as [Hx Hl].
    apply Ascii.eqb_eq in Hx.
    cbn [word rmatch item_matches].
    rewrite (Hw x (or_introl eq_refl)), <- Hx, Ascii.eqb_refl.
    rewrite IH; [| intros c' Hc'; apply Hw; now right | exact Hl].
    simpl. f_equal. lia.
Qed.

Lemma cut_skip (ic : bool) (r : regex) (s : str) :
  forall n pos cur,
    cut_matches ic r pos n s cur = cut_matches ic r (pos + n) 0 (skipn n s) cur.
Proof.
  induction s as [|c s IH]; intros n pos cur.
  - now destruct n.
  - destruct n as [|n].
    + now rewrite Nat.add_0_r.
    + cbn [cut_matches skipn]. rewrite IH. f_equal. lia.
Qed.

Lemma cut_bos (ic : bool) (r : regex) (s : str) :
  forall pos cur,
    cut_matches ic (Bos ;;; r) (S pos) 0 s cur = [rev cur ++ s].
Proof.
  induction s as [|c s IH]; intros pos cur.
  - simpl. now rewrite app_nil_r.
  - cbn [cut_matches rmatch Nat.eqb]. rewrite IH. simpl. now rewrite <- app_assoc.
Qed.

Lemma explanation_re_sub (l : str) :
  is_explanation_tag l = true ->
  re_sub_empty true EXPLANATION_RE l = lstrip (skipn 12 l).
Proof.
  unfold is_explanation_tag. intros H.
  unfold re_sub_empty. destruct l as [|c l]; [discriminate|].
  cbn [cut_matches]. unfold EXPLANATION_RE at 1. cbn [rmatch Nat.eqb].
  rewrite rmatch_word; [| | exact H].
  2:{ intros x Hx. simpl in Hx.
      repeat (destruct Hx as [<- | Hx]; [reflexivity|]). contradiction. }
  cbn [rmatch]. rewrite star_final.
  replace (0 <? _)%nat with true by (symmetry; apply Nat.ltb_lt; simpl; lia).
  rewrite cut_skip. unfold EXPLANATION_RE. rewrite cut_bos.
  cbn [concat rev app]. rewrite app_nil_r.
  change (length (py "explanation:")) with 12.
  set (rest := skipn 12 (c :: l)).
  replace (0 + 12 + length (take_while (item_matches true Space) rest) - 0 - 1)
    with (length (take_while (item_matches true Space) rest) + 11) by lia.
  rewrite <- skipn_skipn. change (skipn 11 l) with rest.
  apply skipn_take_while.
Qed.

(** ** The scan of a block *)

Lemma py_int_ok (ds : str) :
  ds <> [] -> forallb is_digit ds = true -> exists n, py_int ds = Ok n.
Proof.
  intros Hne Hd. unfold py_int. rewrite Hd.
  destruct ds; [contradiction|]. simpl. eauto.
Qed.

Lemma question_line_ok (q_line : str) :
  exists qnum question_text, question_line q_line = Ok (qnum, question_text).
Proof.
  unfold question_line.
  destruct (re_match true QUESTION_RE q_line) as [m|] eqn:Hm; [|eauto].
  destruct (question_re_groups q_line m Hm) as (ds & g & Hcs & Hne & Hd).
  destruct (py_int_ok ds Hne Hd) as (n & Hn).
  unfold group. rewrite Hcs. cbn [nth_error Nat.sub bind]. rewrite Hn.
  cbn [bind]. eauto.
Qed.

Lemma py_range_skipn (lines : list str) (a : nat) :
  py_range a (length lines) = seq a (length (skipn a lines)).
Proof. unfold py_range. now rewrite length_skipn. Qed.

Lemma answer_loop_ok (lines : list str) (a idx0 : nat) :
  exists answer_letter idx,
    answer_loop lines (py_range a (length lines)) None idx0 = Ok (answer_letter, idx).
Proof.
  rewrite py_range_skipn.
  destruct (answer_loop_spec lines (skipn a lines) a idx0 eq_refl)
    as [[_ H] | (pre & l & post & e & c & _ & _ & _ & _ & H)]; eauto.
Qed.

Lemma scan_lines_spec (lines : list str) :
  lines <> [] ->
  Forall (fun l => one_line l = true) lines ->
  exists sc start segs rest st,
    scan_lines lines = Ok sc /\
    skipn start lines = concat segs ++ rest /\
    options_end sc = start + length (concat segs) /\
    Forall2 option_segment segs (options sc) /\
    stops_options rest (options sc) /\
    answer_loop lines (py_range (options_end sc) (length lines)) None (options_end sc)
      = Ok (answer_letter sc, answer_end sc) /\
    explanation_loop lines (py_range (answer_end sc) (length lines)) [] false
      = Ok (explanation sc, st).
Proof.
  intros Hne Hone. unfold scan_lines.
  destruct lines as [|l0 ls] eqn:Hl; [contradiction|]. rewrite <- Hl in *.
  assert (Hg : get lines 0 = Ok l0) by (rewrite Hl; reflexivity).
  rewrite Hg. cbn [bind].
  destruct (question_line_ok l0) as (qn & qt & ->). cbn [bind].
  destruct (question_loop_spec lines (S (length lines)) qt 1)
    as (conts & rest0 & _ & ->); [lia|]. cbn [bind].
  destruct (options_loop_spec lines Hone (S (length lines)) [] (1 + length conts))
    as (segs & new & rest & Hs & -> & Hsegs & Hstop); [lia|]. cbn [bind].
  rewrite app_nil_l.
  destruct (answer_loop_ok lines (1 + length conts + length (concat segs))
              (1 + length conts + length (concat segs))) as (ans & i & Ha).
  rewrite Ha. cbn [bind].
  destruct (explanation_loop_ok lines (skipn i lines) [] i [] false) as (ex & st & He);
    [now rewrite app_nil_r|].
  rewrite <- py_range_skipn in He. rewrite He. cbn [bind].
  eexists _, (1 + length conts), segs, rest, st.
  split; [reflexivity|]. cbn [options options_end answer_letter answer_end explanation].
  repeat split; assumption.
Qed.

(** ** Totality *)


Lemma truthy_false {A : Type} (l : list A) : truthy l = false -> l = [].
Proof. destruct l; [reflexivity | discriminate]. Qed.

Lemma truthy_true {A : Type} (l : list A) : truthy l = true -> l <> [].
Proof. destruct l; [discriminate | discriminate]. Qed.

Lemma parse_block_ok (block source_name module difficulty : str) :
  exists r, parse_block block source_name module difficulty = Ok r.
Proof.
  unfold parse_block. destruct (truthy (block_lines block)) eqn:Ht; cbn [negb]; [|eauto].
  destruct (scan_lines_spec (block_lines block) (truthy_true _ Ht)
              (block_lines_one_line block)) as (sc & _ & _ & _ & _ & -> & _).
  cbn [bind]. eauto.
Qed.




(** ** What a scan and a record are made of *)

Lemma scan_lines_inv (lines : list str) (sc : scan) :
  scan_lines lines = Ok sc ->
  exists q_line qt0 i1 st,
    get lines 0 = Ok q_line /\
    question_line q_line = Ok (qnum sc, qt0) /\
    question_loop (S (length lines)) lines qt0 1 = Ok (question_text sc, i1) /\
    options_loop (S (length lines)) lines [] i1 = Ok (options sc, options_end sc) /\
    answer_loop lines (py_range (options_end sc) (length lines)) None (options_end sc)
      = Ok (answer_letter sc, answer_end sc) /\
    explanation_loop lines (py_range (answer_end sc) (length lines)) [] false
      = Ok (explanation sc, st).
Proof.
  unfold scan_lines. intros H.
  apply bind_ok in H. destruct H as (q_line & Hg & H).
  apply bind_ok in H. destruct H as ([qn qt0] & Hq & H).
  apply bind_ok in H. destruct H as ([qt i1] & Hql & H).
  apply bind_ok in H. destruct H as ([opts i2] & Ho & H).
  apply bind_ok in H. destruct H as ([ans i3] & Ha & H).
  apply bind_ok in H. destruct H as ([ex st] & He & H).
  inversion H; subst; clear H. cbn.
  exists q_line, qt0, i1, st. repeat split; assumption.
Qed.

Lemma scan_answer_letter (lines : list str) (sc : scan) (a : str) :
  scan_lines lines = Ok sc -> answer_letter sc = Some a ->
  In a [py "A"; py "B"; py "C"; py "D"].
Proof.
  intros Hsc Ha. apply scan_lines_inv in Hsc.
  destruct Hsc as (_ & _ & _ & _ & _ & _ & _ & _ & Hans & _).
  rewrite py_range_skipn in Hans.
  destruct (answer_loop_spec lines _ (options_end sc) (options_end sc) eq_refl)
    as [[_ H] | (pre & l & post & e & c & _ & _ & _ & Hc & H)];
    rewrite H in Hans; inversion Hans as [[Hl Hi]]; rewrite Ha in Hl.
  - discriminate.
  - inversion Hl; subst. now apply range_AD.
Qed.

Lemma parse_block_inv (block source_name module difficulty : str) (q : QuestionRecord) :
  parse_block block source_name module difficulty = Ok (Some q) ->
  exists sc a,
    scan_lines (block_lines block) = Ok sc /\
    options sc <> [] /\
    answer_letter sc = Some a /\
    q = mk_question (question_text sc) []
          (map (fun opt => mk_answer (text opt) (str_eqb (letter opt) a) (explanation sc))
               (options sc))
          source_name module difficulty (qnum sc).
Proof.
  unfold parse_block. destruct (negb (truthy (block_lines block))); [discriminate|].
  intros H. apply bind_ok in H. destruct H as (sc & Hsc & H).
  inversion H as [Ha]; clear H. unfold assemble in Ha.
  destruct (options sc) as [|o os] eqn:Ho; [discriminate|].
  destruct (answer_letter sc) as [a|] eqn:Hans; [|discriminate].
  cbn [truthy negb orb answer_truthy] in Ha.
  destruct (truthy a); [|discriminate]. cbn [negb] in Ha. inversion Ha; subst.
  exists sc, a. rewrite Ho. repeat split; try assumption; try discriminate.
Qed.

Lemma count_correct (a rationale : str) (opts : list option_entry) :
  length (filter isCorrect
            (map (fun opt => mk_answer (text opt) (str_eqb (letter opt) a) rationale) opts))
  = letter_count a opts.
Proof.
  unfold letter_count. induction opts as [|o opts IH]; simpl; [reflexivity|].
  destruct (str_eqb (letter o) a); simpl; now rewrite IH.
Qed.

Lemma blocks_loop_emitted (blocks : list str) (source_name module difficulty : str)
  (q : QuestionRecord) :
  forall questions qs,
    blocks_loop blocks source_name module difficulty questions = Ok qs ->
    In q qs ->
    In q questions \/
    exists block,
      In block blocks /\ parse_block block source_name module difficulty = Ok (Some q).
Proof.
  induction blocks as [|b blocks IH]; intros questions qs H Hin; cbn [blocks_loop] in H.
  - inversion H; subst. now left.
  - apply bind_ok in H. destruct H as (r & Hb & H). destruct r as [q'|].
    + destruct (IH _ _ H Hin) as [Hq | (block & Hblock & Hp)].
      * apply in_app_or in Hq. destruct Hq as [Hq | [<- | []]]; [now left|].
        right. exists b. split; [now left | exact Hb].
      * right. exists block. split; [now right | exact Hp].
    + destruct (IH _ _ H Hin) as [Hq | (block & Hblock & Hp)]; [now left|].
      right. exists block. split; [now right | exact Hp].
Qed.

Lemma parse_quiz_text_emitted (text source_name : str) (questions : list QuestionRecord)
  (q : QuestionRecord) :
  parse_quiz_text text source_name = Ok questions ->
  In q questions ->
  exists block module,
    In block (re_split false BLOCK_SEP_RE (strip (replace_crlf text))) /\
    parse_block block source_name module (extract_difficulty source_name) = Ok (Some q).
Proof.
  unfold parse_quiz_text. intros H Hin.
  apply bind_ok in H. destruct H as (module & _ & H).
  destruct (negb (truthy (strip (replace_crlf text)))).
  - inversion H; subst. contradiction.
  - destruct (blocks_loop_emitted _ _ _ _ q _ _ H Hin) as [[] | (block & Hb & Hp)].
    exists block, module. split; assumption.
Qed.


(** C2. A well-formed block (at least one option, and an answer letter that
    is the letter of exactly one consumed option) yields exactly one record,
    and exactly one option of that record is marked correct. *)
Theorem well_formed_block_one_record
  (block source_name module difficulty : str) (sc : scan) (a : str) :
  scan_lines (block_lines block) = Ok sc ->
  options sc <> [] ->
  answer_letter sc = Some a ->
  letter_count a (options sc) = 1 ->
  exists q,
    parse_block block source_name module difficulty = Ok (Some q) /\
    blocks_loop [block] source_name module difficulty [] = Ok [q] /\
    correct_count q = 1.
Proof.
  intros Hsc Ho Ha Hcount.
  assert (Hq : exists q, parse_block block source_name module difficulty = Ok (Some q)
                         /\ correct_count q = 1).
  { unfold parse_block. destruct (block_lines block) as [|l ls] eqn:Hl; [discriminate|].
    cbn [truthy negb]. rewrite Hsc. cbn [bind]. unfold assemble.
    destruct (options sc) as [|o os] eqn:Hos; [contradiction|].
    rewrite Ha. cbn [truthy negb orb answer_truthy].
    assert (Hin := scan_answer_letter _ _ _ Hsc Ha).
    assert (Ht : truthy a = true).
    { simpl in Hin. destruct Hin as [<- | [<- | [<- | [<- | []]]]]; reflexivity. }
    rewrite Ht. cbn [negb]. eexists. split; [reflexivity|].
    unfold correct_count. cbn [answerOptions]. rewrite count_correct. exact Hcount. }
  destruct Hq as (q & Hq & Hc). exists q. repeat split; try assumption.
  cbn [blocks_loop]. rewrite Hq. reflexivity.
Qed.

Lemma option_segment_letter (seg : list str) (o : option_entry) :
  option_segment seg o -> In (letter o) option_letters.
Proof.
  intros H. destruct H as [ol conts Hol _]. cbn [letter].
  destruct (is_option_start_inv ol Hol) as (c & rest & -> & Hc).
  cbn [firstn]. now apply range_AD.
Qed.

Lemma option_segments_letters (segs : list (list str)) (opts : list option_entry) :
  Forall2 option_segment segs opts ->
  Forall (fun o => In (letter o) option_letters) opts.
Proof.
  induction 1; constructor; [eapply option_segment_letter; eassumption | assumption].
Qed.

Lemma scan_lines_nonempty (lines : list str) (sc : scan) :
  scan_lines lines = Ok sc -> lines <> [].
Proof. intros H ->. discriminate. Qed.

(** C3, as amended. Every emitted record, for every input text, has at
    least one answer option, one per consumed option, and the letter of each
    consumed option is one of A, B, C, D. (Neither an upper bound on the
    number of options nor distinct letters are promised.) *)
Theorem emitted_options_lettered
  (text source_name : str) (questions : list QuestionRecord) (q : QuestionRecord) :
  parse_quiz_text text source_name = Ok questions ->
  In q questions ->
  exists block sc,
    In block (re_split false BLOCK_SEP_RE (strip (replace_crlf text))) /\
    scan_lines (block_lines block) = Ok sc /\
    length (answerOptions q) = length (options sc) /\
    1 <= length (answerOptions q) /\
    Forall (fun o => In (letter o) option_letters) (options sc).
Proof.
  intros H Hin.
  destruct (parse_quiz_text_emitted _ _ _ _ H Hin) as (block & module & Hb & Hp).
  apply parse_block_inv in Hp. destruct Hp as (sc & a & Hsc & Hne & _ & ->).
  exists block, sc. cbn [answerOptions]. rewrite length_map.
  repeat split; try assumption.
  - destruct (options sc); [contradiction | simpl; lia].
  - destruct (scan_lines_spec _ (scan_lines_nonempty _ _ Hsc) (block_lines_one_line block))
      as (sc' & start & segs & rest & st & Hsc' & _ & _ & Hsegs & _).
    rewrite Hsc in Hsc'. inversion Hsc'; subst sc'.
    eapply option_segments_letters; eassumption.
Qed.

(** C10, as amended. The lines from the first option line to the place where
    the options loop stops split into consecutive segments, one per consumed
    option: an option line followed by the plain lines after it, and the text
    of the option is the rest of its option line with each of those plain
    lines appended after a blank. The loop stops at the end of the block or
    at an answer or explanation tag; lines after that place are not appended
    to any option. *)
Theorem wrapped_lines_join_their_option (block : str) (sc : scan) :
  scan_lines (block_lines block) = Ok sc ->
  exists start segs rest,
    skipn start (block_lines block) = concat segs ++ rest /\
    options_end sc = start + length (concat segs) /\
    Forall2 option_segment segs (options sc) /\
    stops_options rest (options sc).
Proof.
  intros Hsc.
  destruct (scan_lines_spec _ (scan_lines_nonempty _ _ Hsc) (block_lines_one_line block))
    as (sc' & start & segs & rest & st & Hsc' & Hs & He & Hsegs & Hstop & _).
  rewrite Hsc in Hsc'. inversion Hsc'; subst sc'.
  exists start, segs, rest. repeat split; assumption.
Qed.

Lemma explanation_by_spec_first (pre : list str) (tagline : str) (post : list str) :
  Forall (fun l => is_explanation_tag l = false) pre ->
  is_explanation_tag tagline = true ->
  explanation_by_spec (pre ++ tagline :: post)
  = lstrip (skipn 12 tagline) ++ join_wrapped post.
Proof.
  induction 1 as [|l pre Hl _ IH]; intros Ht; simpl.
  - now rewrite Ht.
  - rewrite Hl. now apply IH.
Qed.

(** C4, as amended. The captured explanation is the last line, at or after
    the answer line's successor, that starts with the explanation tag, its
    tag stripped, with every line after it appended after a blank; a later
    line that starts with the tag restarts the capture instead of being
    appended. When only one line carries the tag this is the first tagged
    line joined with all the lines that follow. *)
Theorem explanation_runs_from_last_tag
  (lines : list str) (sc : scan) (pre : list str) (tagline : str) (post : list str) :
  scan_lines lines = Ok sc ->
  skipn (answer_end sc) lines = pre ++ tagline :: post ->
  is_explanation_tag tagline = true ->
  Forall (fun l => is_explanation_tag l = false) post ->
  explanation sc = lstrip (skipn 12 tagline) ++ join_wrapped post /\
  (Forall (fun l => is_explanation_tag l = false) pre ->
   explanation sc = explanation_by_spec (skipn (answer_end sc) lines)).
Proof.
  intros Hsc Hs Htag Hpost. apply scan_lines_inv in Hsc.
  destruct Hsc as (_ & _ & _ & st & _ & _ & _ & _ & _ & Hex).
  rewrite py_range_skipn, Hs in Hex.
  rewrite (explanation_loop_last lines pre tagline post _ _ _ Hs Htag Hpost) in Hex.
  inversion Hex as [[He Hst]]. rewrite explanation_re_sub by exact Htag.
  split; [reflexivity|]. intros Hpre. rewrite Hs.
  now rewrite explanation_by_spec_first.
Qed.

Lemma blocks_loop_app (before after : list str) (source_name module difficulty : str) :
  forall questions,
    blocks_loop (before ++ after) source_name module difficulty questions
    = (qs <- blocks_loop before source_name module difficulty questions ;;
       blocks_loop after source_name module difficulty qs).
Proof.
  induction before as [|b before IH]; intros questions; cbn [app blocks_loop bind].
  - reflexivity.
  - destruct (parse_block b source_name module difficulty) as [[q|]|e]; cbn [bind];
      [apply IH | apply IH | reflexivity].
Qed.

(** C7. A block from which no option is consumed, or in which no line at or
    after the place where the options loop stopped matches the answer
    pattern, raises nothing and emits no record; the records of the other
    blocks are what they are without it. (A block with no line at all is
    skipped before the scan.) *)
Theorem malformed_block_dropped
  (block source_name module difficulty : str) (sc : scan) :
  scan_lines (block_lines block) = Ok sc ->
  (options sc = [] \/
   forall i l, options_end sc <= i -> nth_error (block_lines block) i = Some l ->
               re_match true ANSWER_RE l = None) ->
  parse_block block source_name module difficulty = Ok None /\
  forall before after questions,
    blocks_loop (before ++ block :: after) source_name module difficulty questions
    = blocks_loop (before ++ after) source_name module difficulty questions.
Proof.
  intros Hsc Hbad.
  assert (Hnone : parse_block block source_name module difficulty = Ok None).
  { unfold parse_block. destruct (negb (truthy (block_lines block))); [reflexivity|].
    rewrite Hsc. cbn [bind]. unfold assemble. destruct Hbad as [Ho | Hno].
    - rewrite Ho. reflexivity.
    - assert (Ha : answer_letter sc = None).
      { apply scan_lines_inv in Hsc.
        destruct Hsc as (_ & _ & _ & _ & _ & _ & _ & _ & Hans & _).
        rewrite py_range_skipn in Hans.
        destruct (answer_loop_spec (block_lines block) _ (options_end sc)
                    (options_end sc) eq_refl)
          as [[_ H] | (pre & l & post & e & c & Hseg & _ & Hm & _ & _)].
        - rewrite H in Hans. now inversion Hans.
        - exfalso. assert (Hn : nth_error (block_lines block)
                                  (options_end sc + length pre) = Some l).
          { rewrite <- nth_error_skipn, Hseg, nth_error_app2, Nat.sub_diag by lia.
            reflexivity. }
          rewrite (Hno _ l (Nat.le_add_r _ _) Hn) in Hm. discriminate. }
      rewrite Ha. cbn [answer_truthy negb orb]. now rewrite orb_true_r. }
  split; [exact Hnone|]. intros before after questions.
  rewrite !blocks_loop_app. f_equal.
  cbn [blocks_loop]. now rewrite Hnone.
Qed.

(** ** The difficulty tag *)

Lemma startswith_spec (p s : str) :
  startswith p s = true <-> exists b, s = p ++ b.
Proof.
  revert s. induction p as [|x p IH]; intros s; simpl.
  - split; [intros _; now exists s | reflexivity].
  - destruct s as [|c s].
    + split; [discriminate | intros [b Hb]; discriminate].
    + rewrite andb_true_iff, IH, Ascii.eqb_eq. split.
      * intros [-> [b ->]]. now exists b.
      * intros [b Hb]. inversion Hb; subst. split; [reflexivity | now exists b].
Qed.

Lemma contains_spec (p s : str) :
  contains p s = true <-> Substring p s.
Proof.
  unfold Substring. induction s as [|c s IH].
  - simpl. rewrite orb_false_r, startswith_spec. split.
    + intros [b Hb]. now exists [], b.
    + intros (a & b & H). destruct a; [now exists b|discriminate].
  - cbn [contains]. rewrite orb_true_iff, IH, startswith_spec. split.
    + intros [[b Hb] | (a & b & H)].
      * now exists [], b.
      * exists (c :: a), b. now rewrite H.
    + intros (a & b & H). destruct a as [|x a].
      * left. now exists b.
      * right. inversion H; subst. now exists a, b.
Qed.

(** C5, as amended. The difficulty is Hard exactly when the lower-cased
    label contains "hard"; otherwise Medium exactly when it contains
    "medium", "med " or " tb med"; otherwise Easy exactly when it contains
    "easy"; otherwise Unknown. *)
Theorem extract_difficulty_rules (label : str) :
  let lower := py_lower label in
  let hard := Substring (py "hard") lower in
  let medium := Substring (py "medium") lower \/ Substring (py "med ") lower
                \/ Substring (py " tb med") lower in
  let easy := Substring (py "easy") lower in
  (extract_difficulty label = py "Hard" <-> hard) /\
  (extract_difficulty label = py "Medium" <-> ~ hard /\ medium) /\
  (extract_difficulty label = py "Easy" <-> ~ hard /\ ~ medium /\ easy) /\
  (extract_difficulty label = py "Unknown" <-> ~ hard /\ ~ medium /\ ~ easy).
Proof.
  cbv zeta. unfold extract_difficulty.
  rewrite <- !contains_spec.
  destruct (contains (py "hard") (py_lower label));
    destruct (contains (py "medium") (py_lower label));
    destruct (contains (py "med ") (py_lower label));
    destruct (contains (py " tb med") (py_lower label));
    destruct (contains (py "easy") (py_lower label));
    cbn [orb]; repeat split; intros; try discriminate; try tauto;
    intuition discriminate.
Qed.

(** ** The module tag *)

Lemma drop_while_head (p : ascii -> bool) (s : str) :
  match drop_while p s with [] => True | c :: _ => p c = false end.
Proof.
  induction s as [|c s IH]; simpl; [exact I|].
  destruct (p c) eqn:Hc; [exact IH | exact Hc].
Qed.

Lemma take_while_forallb (p : ascii -> bool) (s : str) :
  forallb p (take_while p s) = true.
Proof.
  induction s as [|c s IH]; simpl; [reflexivity|].
  destruct (p c) eqn:Hc; simpl; [now rewrite Hc | reflexivity].
Qed.

Lemma take_while_app (p : ascii -> bool) (w rest : str) :
  forallb p w = true ->
  match rest with [] => True | c :: _ => p c = false end ->
  take_while p (w ++ rest) = w /\ drop_while p (w ++ rest) = rest.
Proof.
  intros Hw Hr. induction w as [|c w IH]; simpl in *.
  - destruct rest as [|c rest]; [auto|]. simpl. rewrite Hr. auto.
  - apply andb_true_iff in Hw. destruct Hw as [Hc Hw]. rewrite Hc.
    destruct (IH Hw) as [-> ->]. auto.
Qed.

Lemma firstn_take_while (p : ascii -> bool) (s : str) :
  firstn (length (take_while p s)) s = take_while p s.
Proof.
  induction s as [|c s IH]; simpl; [reflexivity|].
  destruct (p c); simpl; [now rewrite IH | reflexivity].
Qed.

Lemma digit_not_space (c : ascii) : is_digit c = true -> is_space c = false.
Proof.
  destruct c as [[] [] [] [] [] [] [] []]; vm_compute; intros H;
    try discriminate; reflexivity.
Qed.

Lemma lit_zero (c : ascii) : item_matches true (Lit "0") c = true -> c = "0"%char.
Proof.
  destruct c as [[] [] [] [] [] [] [] []]; vm_compute; intros H;
    try discriminate; reflexivity.
Qed.

Lemma py_int_leading_zero (g : str) :
  g <> [] -> py_int ("0"%char :: g) = py_int g.
Proof.
  intros Hg. unfold py_int. destruct g as [|c g]; [contradiction|]. reflexivity.
Qed.

(** The group [(\d+)] at the end of the pattern takes every digit ahead. *)
Lemma digits_group_eval (p : nat) (t : str) (cs : list str) :
  rmatch true (Group (Plus Digit)) p t cs final
  = match t with
    | c :: t' =>
        if is_digit c
        then Some (S p + length (take_while is_digit t'),
                   cs ++ [c :: take_while is_digit t'])
        else None
    | [] => None
    end.
Proof.
  cbn [rmatch]. destruct t as [|c t']; [reflexivity|].
  cbn [item_matches]. destruct (is_digit c) eqn:Hc; [|reflexivity].
  apply star_take. unfold final.
  change (item_matches true Digit) with is_digit.
  replace (S p + length (take_while is_digit t') - p)
    with (S (length (take_while is_digit t'))) by lia.
  cbn [firstn]. now rewrite firstn_take_while.
Qed.

Lemma rmatch_seq (ic : bool) (r1 r2 : regex) pos s caps k :
  rmatch ic (r1 ;;; r2) pos s caps k
  = rmatch ic r1 pos s caps (fun p t cs => rmatch ic r2 p t cs k).
Proof. reflexivity. Qed.

Lemma rmatch_opt (ic : bool) (i : item) pos s caps k :
  rmatch ic (Opt i) pos s caps k
  = match s with
    | c :: s' =>
        if item_matches ic i c
        then orelse (k (S pos) s' caps) (k pos s caps)
        else k pos s caps
    | [] => k pos s caps
    end.
Proof. reflexivity. Qed.

Lemma module_tail_sound (p : nat) (t : str) (cs : list str) (m : nat * list str) :
  rmatch true module_tail p t cs final = Some m ->
  take_while is_digit t <> [] /\
  exists g, snd m = cs ++ [g] /\ py_int g = py_int (take_while is_digit t).
Proof.
  unfold module_tail. rewrite rmatch_seq, rmatch_opt. cbv beta.
  destruct t as [|c t]; [rewrite digits_group_eval; discriminate|].
  destruct (item_matches true (Lit "0") c) eqn:Hz.
  - apply lit_zero in Hz. subst c. rewrite !digits_group_eval.
    change (is_digit "0") with true. cbn [take_while].
    change (is_digit "0") with true.
    destruct t as [|d t]; cbn [orelse take_while].
    + intros H. inversion H; subst. split; [discriminate|]. eexists; split; reflexivity.
    + destruct (is_digit d) eqn:Hd; cbn [orelse take_while]; rewrite ?Hd;
        intros H; inversion H; subst; (split; [discriminate|]);
        eexists; (split; [reflexivity|]).
      * symmetry. apply py_int_leading_zero. discriminate.
      * reflexivity.
  - rewrite digits_group_eval. cbn [take_while].
    destruct (is_digit c) eqn:Hc; [|discriminate].
    intros H. inversion H; subst. split; [discriminate|]. eexists; split; reflexivity.
Qed.

Lemma module_tail_complete (p : nat) (d : ascii) (t : str) (cs : list str) :
  is_digit d = true ->
  exists m, rmatch true module_tail p (d :: t) cs final = Some m.
Proof.
  intros Hd. unfold module_tail. rewrite rmatch_seq, rmatch_opt. cbv beta.
  rewrite !digits_group_eval, Hd.
  destruct (item_matches true (Lit "0") d); [|eauto].
  destruct t as [|c t]; cbn [orelse]; [eauto|].
  destruct (is_digit c); cbn [orelse]; eauto.
Qed.

Lemma lit_lower (x c : ascii) :
  item_matches true (Lit x) c = true -> lower_char c = lower_char x.
Proof. cbn [item_matches]. apply Ascii.eqb_eq. Qed.

Lemma module_at_sound (pos : nat) (s : str) (m : nat * list str) :
  rmatch true MODULE_RE pos s [] final = Some m ->
  exists kw ws ds post g,
    s = kw ++ ws ++ ds ++ post /\ module_tag kw ws ds /\ no_digit_ahead post /\
    snd m = [g] /\ py_int g = py_int ds.
Proof.
  change MODULE_RE
    with (Alt (word (py "md")) (word (py "mod")) ;;; Star Space ;;; module_tail).
  rewrite rmatch_seq. intros H. apply rmatch_sound in H.
  destruct H as (p & t & cs & Hkw & H).
  rewrite rmatch_seq in H. cbn [rmatch] in H. apply star_sound in H.
  destruct H as (p' & t' & Hws & Htail).
  apply run_star_inv in Hws. destruct Hws as (_ & ws & -> & -> & Hws).
  apply module_tail_sound in Htail. destruct Htail as (Hne & g & Hg & Hint).
  assert (Hk : exists kw, s = kw ++ ws ++ t' /\ cs = [] /\
                          (py_lower kw = py "md" \/ py_lower kw = py "mod")).
  { simpl word in Hkw. inversion Hkw; subst; clear Hkw; run_inv;
      repeat match goal with
             | Hc : item_matches true (Lit _) _ = true |- _ => apply lit_lower in Hc
             end.
    - eexists [_; _]. repeat split. left. cbn [py_lower map].
      repeat match goal with Hc : lower_char _ = _ |- _ => rewrite Hc; clear Hc end.
      reflexivity.
    - eexists [_; _; _]. repeat split. right. cbn [py_lower map].
      repeat match goal with Hc : lower_char _ = _ |- _ => rewrite Hc; clear Hc end.
      reflexivity. }
  destruct Hk as (kw & -> & -> & Hkw').
  exists kw, ws, (take_while is_digit t'), (drop_while is_digit t'), g.
  rewrite take_drop_while. repeat split; try assumption.
  - apply take_while_forallb.
  - apply drop_while_head.
Qed.

Lemma py_lower_app (a b : str) : py_lower (a ++ b) = py_lower a ++ py_lower b.
Proof. apply map_app. Qed.

Lemma skipn_app_exact (a b : str) (n : nat) : n = length a -> skipn n (a ++ b) = b.
Proof.
  intros ->. rewrite skipn_app, skipn_all, Nat.sub_diag. reflexivity.
Qed.

Lemma module_rest_complete (pos : nat) (ws ds post : str) :
  forallb is_space ws = true -> ds <> [] -> forallb is_digit ds = true ->
  exists m,
    rmatch true (Star Space ;;; module_tail) pos (ws ++ ds ++ post) [] final = Some m.
Proof.
  intros Hws Hne Hds. destruct ds as [|d ds]; [contradiction|].
  cbn [forallb] in Hds. apply andb_true_iff in Hds. destruct Hds as [Hd _].
  destruct (take_while_app is_space ws ((d :: ds) ++ post) Hws
              (digit_not_space d Hd)) as [Ht Hdr].
  destruct (module_tail_complete (pos + length ws) d (ds ++ post) [] Hd) as (m & Hm).
  exists m. rewrite rmatch_seq. cbn [rmatch]. apply star_take.
  change (item_matches true Space) with is_space. rewrite Ht, Hdr. exact Hm.
Qed.

Lemma rmatch_alt (ic : bool) (r1 r2 : regex) pos s caps k :
  rmatch ic (Alt r1 r2) pos s caps k
  = orelse (rmatch ic r1 pos s caps k) (rmatch ic r2 pos s caps k).
Proof. reflexivity. Qed.

Lemma module_at_complete (pos : nat) (kw ws ds post : str) :
  module_tag kw ws ds ->
  exists m, rmatch true MODULE_RE pos (kw ++ ws ++ ds ++ post) [] final = Some m.
Proof.
  intros ([Hkw | Hkw] & Hws & Hne & Hds);
    change MODULE_RE
      with (Alt (word (py "md")) (word (py "mod")) ;;; Star Space ;;; module_tail);
    rewrite rmatch_seq, rmatch_alt.
  - destruct (module_rest_complete (pos + 2) ws ds post Hws Hne Hds) as (m & Hm).
    exists m. rewrite rmatch_word.
    + rewrite skipn_app_exact
        by (rewrite <- (length_map lower_char kw); fold (py_lower kw); now rewrite Hkw).
      cbn [length list_ascii_of_string]. cbv beta. rewrite Hm. reflexivity.
    + intros x Hx. simpl in Hx. repeat (destruct Hx as [<- | Hx]; [reflexivity|]).
      contradiction.
    + apply startswith_spec. rewrite py_lower_app.
      fold (py_lower kw). rewrite Hkw. eauto.
  - destruct (module_rest_complete (pos + 3) ws ds post Hws Hne Hds) as (m & Hm).
    exists m.
    assert (H1 : rmatch true (word (py "md")) pos (kw ++ ws ++ ds ++ post) []
                   (fun p t cs => rmatch true (Star Space ;;; module_tail) p t cs final)
                 = None).
    { destruct kw as [|c1 [|c2 [|c3 [|c4 kw]]]]; try discriminate.
      cbn [py_lower map] in Hkw. injection Hkw as H1 H2 H3.
      cbn [word rmatch item_matches app list_ascii_of_string].
      rewrite H1, H2. reflexivity. }
    rewrite H1. cbn [orelse]. rewrite rmatch_word.
    + rewrite skipn_app_exact
        by (rewrite <- (length_map lower_char kw); fold (py_lower kw); now rewrite Hkw).
      cbn [length list_ascii_of_string]. cbv beta. exact Hm.
    + intros x Hx. simpl in Hx. repeat (destruct Hx as [<- | Hx]; [reflexivity|]).
      contradiction.
    + apply startswith_spec. rewrite py_lower_app.
      fold (py_lower kw). rewrite Hkw. eauto.
Qed.




(** ** The examples of the specification *)

Example example_1 :
  parse_quiz_text arithmetic_block (py "MD3 TB Hard Quiz")
  = Ok [mk_question (py "What is 2+2?") []
          [mk_answer (py "3") false (py "Basic arithmetic.");
           mk_answer (py "4") true (py "Basic arithmetic.");
           mk_answer (py "5") false (py "Basic arithmetic.");
           mk_answer (py "6") false (py "Basic arithmetic.")]
          (py "MD3 TB Hard Quiz") (py "MD3") (py "Hard") (Some 1%N)].
Proof. vm_compute. reflexivity. Qed.

Example example_3 :
  extract_module (py "Misc Review") = Ok (py "Other") /\
  extract_difficulty (py "Misc Review") = py "Unknown".
Proof. split; reflexivity. Qed.

Example example_4 :
  parse_quiz_text (unlines [py "Q7. A question that"; py "wraps"; py "A. x"; py "Answer: A"]) []
  = Ok [mk_question (py "A question that wraps") []
          [mk_answer (py "x") true []] [] (py "Other") (py "Unknown") (Some 7%N)].
Proof. vm_compute. reflexivity. Qed.

(** ** Instances and counterexamples *)



Lemma well_formed_block_one_record_witness :
  exists sc a,
    scan_lines (block_lines arithmetic_block) = Ok sc /\
    options sc <> [] /\
    answer_letter sc = Some a /\
    letter_count a (options sc) = 1 /\
    exists q,
      parse_block arithmetic_block [] [] [] = Ok (Some q) /\
      blocks_loop [arithmetic_block] [] [] [] [] = Ok [q] /\
      correct_count q = 1.
Proof.
  eexists. eexists.
  assert (Hsc : scan_lines (block_lines arithmetic_block)
                = Ok (mk_scan (Some 1%N) (py "What is 2+2?")
                        [mk_option (py "A") (py "3"); mk_option (py "B") (py "4");
                         mk_option (py "C") (py "5"); mk_option (py "D") (py "6")]
                        5 (Some (py "B")) 6 (py "Basic arithmetic.")))
    by (vm_compute; reflexivity).
  split; [exact Hsc|]. split; [discriminate|].
  split; [reflexivity|]. split; [reflexivity|].
  apply (well_formed_block_one_record arithmetic_block [] [] [] _ (py "B") Hsc);
    [discriminate | reflexivity | reflexivity].
Defined.

Lemma emitted_options_lettered_witness :
  parse_quiz_text arithmetic_block [] = Ok [arithmetic_record] /\
  In arithmetic_record [arithmetic_record] /\
  exists block sc,
    In block (re_split false BLOCK_SEP_RE (strip (replace_crlf arithmetic_block))) /\
    scan_lines (block_lines block) = Ok sc /\
    length (answerOptions arithmetic_record) = length (options sc) /\
    1 <= length (answerOptions arithmetic_record) /\
    Forall (fun o => In (letter o) option_letters) (options sc).
Proof.
  assert (H : parse_quiz_text arithmetic_block [] = Ok [arithmetic_record])
    by (vm_compute; reflexivity).
  split; [exact H|]. split; [left; reflexivity|].
  exact (emitted_options_lettered _ _ _ _ H (or_introl eq_refl)).
Defined.

(** Against C3 as stated: this text yields a record with five options, two
    of them read from lines with the letter A. *)
Lemma repeated_letter_five_options :
  exists q sc,
    parse_quiz_text repeated_letter_block [] = Ok [q] /\
    scan_lines (block_lines repeated_letter_block) = Ok sc /\
    length (answerOptions q) = 5 /\
    map letter (options sc) = [py "A"; py "B"; py "C"; py "D"; py "A"] /\
    ~ NoDup (map letter (options sc)).
Proof.
  eexists. eexists. split; [vm_compute; reflexivity|].
  split; [vm_compute; reflexivity|]. split; [reflexivity|]. split; [reflexivity|].
  cbn. intros H. inversion H as [|x l Hin _]; subst. apply Hin. simpl. tauto.
Qed.

Lemma explanation_runs_from_last_tag_witness :
  exists sc,
    scan_lines (block_lines two_explanations_block) = Ok sc /\
    skipn (answer_end sc) (block_lines two_explanations_block)
      = [py "Explanation: one"] ++ py "Explanation: two" :: [py "more"] /\
    is_explanation_tag (py "Explanation: two") = true /\
    Forall (fun l => is_explanation_tag l = false) [py "more"] /\
    explanation sc = lstrip (skipn 12 (py "Explanation: two")) ++ join_wrapped [py "more"] /\
    (Forall (fun l => is_explanation_tag l = false) [py "Explanation: one"] ->
     explanation sc
     = explanation_by_spec (skipn (answer_end sc) (block_lines two_explanations_block))).
Proof.
  eexists.
  assert (Hsc : scan_lines (block_lines two_explanations_block)
                = Ok (mk_scan (Some 1%N) (py "q") [mk_option (py "A") (py "x")]
                        2 (Some (py "A")) 3 (py "two more")))
    by (vm_compute; reflexivity).
  assert (Hs : skipn 3 (block_lines two_explanations_block)
               = [py "Explanation: one"] ++ py "Explanation: two" :: [py "more"])
    by (vm_compute; reflexivity).
  assert (Hpost : Forall (fun l => is_explanation_tag l = false) [py "more"])
    by (constructor; [vm_compute; reflexivity | constructor]).
  split; [exact Hsc|]. split; [exact Hs|]. split; [vm_compute; reflexivity|].
  split; [exact Hpost|].
  apply (explanation_runs_from_last_tag _ _ _ _ _ Hsc Hs); [vm_compute; reflexivity|].
  exact Hpost.
Defined.

(** Against C4 as stated: with two tagged lines the captured explanation
    starts at the second one, whereas the first tagged line joined with all
    the lines after it reads otherwise. *)
Lemma second_tag_restarts_explanation :
  exists sc,
    scan_lines (block_lines two_explanations_block) = Ok sc /\
    explanation sc = py "two more" /\
    explanation_by_spec (skipn (answer_end sc) (block_lines two_explanations_block))
    = py "one Explanation: two more".
Proof. eexists. split; [vm_compute; reflexivity|]. split; vm_compute; reflexivity. Qed.

Lemma malformed_block_dropped_witness :
  exists sc,
    scan_lines (block_lines no_answer_block) = Ok sc /\
    (options sc = [] \/
     forall i l, options_end sc <= i -> nth_error (block_lines no_answer_block) i = Some l ->
                 re_match true ANSWER_RE l = None) /\
    parse_block no_answer_block [] [] [] = Ok None /\
    forall before after questions,
      blocks_loop (before ++ no_answer_block :: after) [] [] [] questions
      = blocks_loop (before ++ after) [] [] [] questions.
Proof.
  eexists.
  assert (Hsc : scan_lines (block_lines no_answer_block)
                = Ok (mk_scan (Some 1%N) (py "q")
                        [mk_option (py "A") (py "x"); mk_option (py "B") (py "y")]
                        3 None 3 (py "none")))
    by (vm_compute; reflexivity).
  assert (Hno : forall i l, 3 <= i -> nth_error (block_lines no_answer_block) i = Some l ->
                            re_match true ANSWER_RE l = None).
  { intros i l Hi Hn.
    do 3 (destruct i as [|i]; [lia|]).
    destruct i as [|i].
    - vm_compute in Hn. injection Hn as <-. vm_compute. reflexivity.
    - vm_compute in Hn. destruct i; discriminate. }
  split; [exact Hsc|]. split; [right; exact Hno|].
  apply (malformed_block_dropped no_answer_block [] [] [] _ Hsc). right. exact Hno.
Defined.

Lemma wrapped_lines_join_their_option_witness :
  exists sc,
    scan_lines (block_lines stray_line_block) = Ok sc /\
    exists start segs rest,
      skipn start (block_lines stray_line_block) = concat segs ++ rest /\
      options_end sc = start + length (concat segs) /\
      Forall2 option_segment segs (options sc) /\
      stops_options rest (options sc).
Proof.
  eexists.
  assert (Hsc : scan_lines (block_lines stray_line_block)
                = Ok (mk_scan (Some 1%N) (py "q") [mk_option (py "A") (py "x wrapped")]
                        3 (Some (py "A")) 6 []))
    by (vm_compute; reflexivity).
  split; [exact Hsc|].
  exact (wrapped_lines_join_their_option stray_line_block _ Hsc).
Defined.

(** Against C10 as stated: the plain line "stray" comes after the consumed
    option and before the answer tag, and it is not appended to the text of
    the option (nor kept anywhere else). *)
Lemma stray_line_not_appended :
  exists sc,
    scan_lines (block_lines stray_line_block) = Ok sc /\
    nth_error (block_lines stray_line_block) 4 = Some (py "stray") /\
    plain (py "stray") = true /\
    nth_error (block_lines stray_line_block) 5 = Some (py "Answer: A") /\
    options sc = [mk_option (py "A") (py "x wrapped")] /\
    answer_letter sc = Some (py "A") /\
    explanation sc = [].
Proof.
  eexists. split; [vm_compute; reflexivity|].
  repeat split; vm_compute; reflexivity.
Qed.

(** Against C5 as stated: the label "MD1 TB Med" is tagged Medium although its
    lower-case form contains neither "hard", nor "medium", nor "med ". *)
Lemma tb_med_is_medium :
  extract_difficulty (py "MD1 TB Med") = py "Medium" /\
  difficulty_by_spec (py "MD1 TB Med") = py "Unknown" /\
  contains (py "medium") (py_lower (py "MD1 TB Med")) = false /\
  contains (py "med ") (py_lower (py "MD1 TB Med")) = false.
Proof. repeat split; vm_compute; reflexivity. Qed.

(** * Further properties of the parser *)

Lemma parse_quiz_text_blocks (text source_name : str) (questions : list QuestionRecord) :
  parse_quiz_text text source_name = Ok questions ->
  exists module,
    extract_module source_name = Ok module /\
    (strip (replace_crlf text) = [] /\ questions = [] \/
     blocks_loop (blocks_of text) source_name module
       (extract_difficulty source_name) [] = Ok questions).
Proof.
  unfold parse_quiz_text. intros H.
  apply bind_ok in H. destruct H as (module & Hm & H).
  exists module. split; [exact Hm|].
  destruct (strip (replace_crlf text)) as [|c s] eqn:Ht.
  - left. cbn in H. inversion H. auto.
  - right. cbn [truthy negb] in H. unfold blocks_of. now rewrite Ht.
Qed.

Lemma blocks_loop_results (blocks : list str) (source_name module difficulty : str) :
  forall questions,
    exists rs,
      Forall2 (fun b r => parse_block b source_name module difficulty = Ok r) blocks rs /\
      blocks_loop blocks source_name module difficulty questions
      = Ok (questions ++ flat_map emitted rs).
Proof.
  induction blocks as [|b blocks IH]; intros questions.
  - exists []. split; [constructor|]. simpl. now rewrite app_nil_r.
  - destruct (parse_block_ok b source_name module difficulty) as (r & Hr).
    cbn [blocks_loop]. rewrite Hr. cbn [bind]. destruct r as [q|].
    + destruct (IH (questions ++ [q])) as (rs & Hrs & ->).
      exists (Some q :: rs). split; [constructor; assumption|].
      cbn [flat_map emitted]. now rewrite <- app_assoc.
    + destruct (IH questions) as (rs & Hrs & ->).
      exists (None :: rs). split; [constructor; assumption|]. reflexivity.
Qed.

Lemma parse_block_blank (source_name module difficulty : str) :
  parse_block [] source_name module difficulty = Ok None.
Proof. reflexivity. Qed.

Lemma length_flat_map_emitted (rs : list (option QuestionRecord)) :
  length (flat_map emitted rs) <= length rs.
Proof.
  induction rs as [|[q|] rs IH]; simpl; lia.
Qed.

(** X1. The records come block by block: each block of the text contributes
    its record or nothing, in the order of the blocks, so that there are never
    more records than blocks. *)
Theorem records_follow_blocks
  (text source_name : str) (questions : list QuestionRecord) :
  parse_quiz_text text source_name = Ok questions ->
  exists module rs,
    extract_module source_name = Ok module /\
    Forall2 (fun b r => parse_block b source_name module
                          (extract_difficulty source_name) = Ok r)
            (blocks_of text) rs /\
    questions = flat_map emitted rs /\
    length questions <= length (blocks_of text).
Proof.
  intros H. destruct (parse_quiz_text_blocks _ _ _ H) as (module & Hm & [[Ht ->] | Hb]).
  - exists module, [None]. split; [exact Hm|]. unfold blocks_of. rewrite Ht.
    repeat split; [|simpl; lia].
    constructor; [apply parse_block_blank | constructor].
  - destruct (blocks_loop_results (blocks_of text) source_name module
                (extract_difficulty source_name) []) as (rs & Hrs & Hq).
    rewrite Hb in Hq. inversion Hq; subst. exists module, rs.
    repeat split; try assumption.
    cbn [app]. rewrite (Forall2_length Hrs). apply length_flat_map_emitted.
Qed.

Lemma records_follow_blocks_witness :
  parse_quiz_text two_question_text (py "mod 07 hard") = Ok two_question_records /\
  exists module rs,
    extract_module (py "mod 07 hard") = Ok module /\
    Forall2 (fun b r => parse_block b (py "mod 07 hard") module
                          (extract_difficulty (py "mod 07 hard")) = Ok r)
            (blocks_of two_question_text) rs /\
    two_question_records = flat_map emitted rs /\
    length two_question_records <= length (blocks_of two_question_text).
Proof.
  assert (H : parse_quiz_text two_question_text (py "mod 07 hard")
              = Ok two_question_records) by (vm_compute; reflexivity).
  split; [exact H|]. exact (records_follow_blocks _ _ _ H).
Defined.

Lemma parse_quiz_text_emitted_by (text source_name : str)
  (questions : list QuestionRecord) (q : QuestionRecord) :
  parse_quiz_text text source_name = Ok questions ->
  In q questions ->
  exists block module,
    In block (blocks_of text) /\
    extract_module source_name = Ok module /\
    parse_block block source_name module (extract_difficulty source_name) = Ok (Some q).
Proof.
  intros H Hin.
  destruct (parse_quiz_text_blocks _ _ _ H) as (module & Hm & [[_ ->] | Hb]);
    [contradiction|].
  destruct (blocks_loop_emitted _ _ _ _ q _ _ Hb Hin) as [[] | (block & Hblock & Hp)].
  exists block, module. repeat split; assumption.
Qed.

(** X2. Every record of a text carries the label it was parsed under as its
    source, an empty hint, and the module and the difficulty derived from
    that label alone: all the records of one text share them. *)
Theorem records_carry_label_metadata
  (text source_name : str) (questions : list QuestionRecord) (q : QuestionRecord) :
  parse_quiz_text text source_name = Ok questions ->
  In q questions ->
  source q = source_name /\
  hint q = [] /\
  extract_module source_name = Ok (module q) /\
  difficulty q = extract_difficulty source_name.
Proof.
  intros H Hin.
  destruct (parse_quiz_text_emitted_by _ _ _ _ H Hin) as (block & m & _ & Hm & Hp).
  apply parse_block_inv in Hp. destruct Hp as (sc & a & _ & _ & _ & ->).
  cbn. repeat split. exact Hm.
Qed.

Lemma records_carry_label_metadata_witness :
  parse_quiz_text arithmetic_block [] = Ok [arithmetic_record] /\
  In arithmetic_record [arithmetic_record] /\
  source arithmetic_record = [] /\
  hint arithmetic_record = [] /\
  extract_module [] = Ok (module arithmetic_record) /\
  difficulty arithmetic_record = extract_difficulty [].
Proof.
  assert (H : parse_quiz_text arithmetic_block [] = Ok [arithmetic_record])
    by (vm_compute; reflexivity).
  split; [exact H|]. split; [left; reflexivity|].
  exact (records_carry_label_metadata _ _ _ _ H (or_introl eq_refl)).
Defined.

(** X3. The answer options of a record are the consumed options in their
    order, text for text; each is marked correct exactly when its letter is
    the answer letter; and all of them carry one and the same rationale, the
    captured explanation. The question and its number are those of the scan. *)
Theorem record_mirrors_scan
  (txt source_name : str) (questions : list QuestionRecord) (q : QuestionRecord) :
  parse_quiz_text txt source_name = Ok questions ->
  In q questions ->
  exists block sc a,
    In block (blocks_of txt) /\
    scan_lines (block_lines block) = Ok sc /\
    answer_letter sc = Some a /\
    question q = question_text sc /\
    questionNumber q = qnum sc /\
    map ao_text (answerOptions q) = map text (options sc) /\
    map isCorrect (answerOptions q) = map (fun o => str_eqb (letter o) a) (options sc) /\
    Forall (fun ao => rationale ao = explanation sc) (answerOptions q).
Proof.
  intros H Hin.
  destruct (parse_quiz_text_emitted_by _ _ _ _ H Hin) as (block & m & Hb & _ & Hp).
  apply parse_block_inv in Hp. destruct Hp as (sc & a & Hsc & _ & Ha & ->).
  exists block, sc, a. cbn [question questionNumber answerOptions].
  rewrite !map_map. cbn [ao_text isCorrect].
  repeat split; try assumption.
  apply Forall_map. apply Forall_forall. intros o _. reflexivity.
Qed.

Lemma record_mirrors_scan_witness :
  parse_quiz_text arithmetic_block [] = Ok [arithmetic_record] /\
  In arithmetic_record [arithmetic_record] /\
  exists block sc a,
    In block (blocks_of arithmetic_block) /\
    scan_lines (block_lines block) = Ok sc /\
    answer_letter sc = Some a /\
    question arithmetic_record = question_text sc /\
    questionNumber arithmetic_record = qnum sc /\
    map ao_text (answerOptions arithmetic_record) = map text (options sc) /\
    map isCorrect (answerOptions arithmetic_record)
    = map (fun o => str_eqb (letter o) a) (options sc) /\
    Forall (fun ao => rationale ao = explanation sc) (answerOptions arithmetic_record).
Proof.
  assert (H : parse_quiz_text arithmetic_block [] = Ok [arithmetic_record])
    by (vm_compute; reflexivity).
  split; [exact H|]. split; [left; reflexivity|].
  exact (record_mirrors_scan _ _ _ _ H (or_introl eq_refl)).
Defined.

(** X4. A block yields a record exactly when its scan has consumed at least
    one option and has found an answer letter; nothing else in the block
    decides it. *)
Theorem record_emitted_iff
  (block source_name module difficulty : str) (sc : scan) :
  scan_lines (block_lines block) = Ok sc ->
  ((exists q, parse_block block source_name module difficulty = Ok (Some q))
   <-> options sc <> [] /\ answer_letter sc <> None).
Proof.
  intros Hsc. split.
  - intros [q Hq]. apply parse_block_inv in Hq.
    destruct Hq as (sc' & a & Hsc' & Hne & Ha & _).
    rewrite Hsc in Hsc'. inversion Hsc'; subst sc'.
    split; [exact Hne | congruence].
  - intros [Hne Ha]. destruct (answer_letter sc) as [a|] eqn:Hans; [|contradiction].
    assert (Hin := scan_answer_letter _ _ _ Hsc Hans).
    assert (Ht : truthy a = true).
    { simpl in Hin. destruct Hin as [<- | [<- | [<- | [<- | []]]]]; reflexivity. }
    unfold parse_block. destruct (block_lines block) as [|l ls] eqn:Hl; [discriminate|].
    cbn [truthy negb]. rewrite Hsc. cbn [bind]. unfold assemble. rewrite Hans.
    destruct (options sc) as [|o os]; [contradiction|].
    cbn [truthy negb orb answer_truthy]. rewrite Ht. cbn [negb]. eauto.
Qed.

Lemma record_emitted_iff_witness :
  scan_lines (block_lines unmatched_answer_block) = Ok unmatched_answer_scan /\
  ((exists q, parse_block unmatched_answer_block [] [] [] = Ok (Some q))
   <-> options unmatched_answer_scan <> [] /\
       answer_letter unmatched_answer_scan <> None).
Proof.
  assert (H : scan_lines (block_lines unmatched_answer_block)
              = Ok unmatched_answer_scan) by (vm_compute; reflexivity).
  split; [exact H|].
  exact (record_emitted_iff unmatched_answer_block [] [] [] _ H).
Defined.

(** X5. When no line after the answer line starts with the explanation tag,
    the explanation is empty, whatever those lines hold. *)
Theorem no_tag_no_explanation (lines : list str) (sc : scan) :
  scan_lines lines = Ok sc ->
  Forall (fun l => is_explanation_tag l = false) (skipn (answer_end sc) lines) ->
  explanation sc = [].
Proof.
  intros Hsc Hall. apply scan_lines_inv in Hsc.
  destruct Hsc as (_ & _ & _ & st & _ & _ & _ & _ & _ & Hex).
  rewrite py_range_skipn in Hex.
  rewrite (explanation_loop_none lines (skipn (answer_end sc) lines) [] (answer_end sc))
    in Hex; [| now rewrite app_nil_r | exact Hall].
  now inversion Hex.
Qed.

Lemma no_tag_no_explanation_witness :
  scan_lines (block_lines untagged_note_block) = Ok untagged_note_scan /\
  Forall (fun l => is_explanation_tag l = false)
         (skipn (answer_end untagged_note_scan) (block_lines untagged_note_block)) /\
  explanation untagged_note_scan = [].
Proof.
  assert (H : scan_lines (block_lines untagged_note_block) = Ok untagged_note_scan)
    by (vm_compute; reflexivity).
  assert (Hall : Forall (fun l => is_explanation_tag l = false)
                   (skipn (answer_end untagged_note_scan)
                          (block_lines untagged_note_block)))
    by (vm_compute; repeat constructor).
  split; [exact H|]. split; [exact Hall|].
  exact (no_tag_no_explanation _ _ H Hall).
Defined.

(** ** Blank text and the lines of a block *)





Lemma rstrip_prefix (s : str) : exists tail, s = rstrip s ++ tail.
Proof.
  unfold rstrip. exists (rev (take_while is_space (rev s))).
  rewrite <- rev_app_distr, take_drop_while. now rewrite rev_involutive.
Qed.

Lemma drop_while_idem (p : ascii -> bool) (s : str) :
  drop_while p (drop_while p s) = drop_while p s.
Proof.
  induction s as [|c s IH]; simpl; [reflexivity|].
  destruct (p c) eqn:Hc; [exact IH|]. simpl. now rewrite Hc.
Qed.

Lemma drop_while_stable (p : ascii -> bool) (s : str) :
  match s with [] => True | c :: _ => p c = false end -> drop_while p s = s.
Proof. destruct s as [|c s]; simpl; [reflexivity|]. now intros ->. Qed.

Lemma strip_idempotent (s : str) : strip (strip s) = strip s.
Proof.
  unfold strip. set (x := lstrip s).
  assert (Hx : match x with [] => True | c :: _ => is_space c = false end)
    by apply drop_while_head.
  assert (Hl : lstrip (rstrip x) = rstrip x).
  { apply drop_while_stable. destruct (rstrip_prefix x) as (tail & Ht).
    destruct (rstrip x) as [|c r]; [exact I|]. rewrite Ht in Hx. exact Hx. }
  rewrite Hl. unfold rstrip. rewrite rev_involutive, drop_while_idem. reflexivity.
Qed.

(** X7. The lines the scan works on are never empty, hold no line feed, and
    have no blank at either end: blank lines of the block are dropped and the
    others are stripped. *)
Theorem block_lines_clean (block : str) :
  Forall (fun l => l <> [] /\ one_line l = true /\ strip l = l) (block_lines block).
Proof.
  unfold block_lines. apply Forall_map. apply Forall_forall.
  intros l Hl. apply filter_In in Hl. destruct Hl as [Hin Ht].
  repeat split.
  - now apply truthy_true.
  - apply strip_one_line.
    exact (proj1 (Forall_forall _ _) (split_on_one_line block) l Hin).
  - apply strip_idempotent.
Qed.

(** ** The question line *)

Lemma lit_Q (c : ascii) :
  item_matches true (Lit "Q") c = true <-> c = "Q"%char \/ c = "q"%char.
Proof.
  split.
  - destruct c as [[] [] [] [] [] [] [] []]; vm_compute; intros H;
      try discriminate; auto.
  - intros [-> | ->]; reflexivity.
Qed.

Lemma dot_not_digit : is_digit "."%char = false.
Proof. reflexivity. Qed.

Lemma line_tail_eval (p : nat) (r : str) (cs : list str) :
  forallb (item_matches true Any) r = true ->
  exists e,
    rmatch true (Star Space ;;; Group (Star Any) ;;; Eos) p r cs final
    = Some (e, cs ++ [lstrip r]).
Proof.
  intros Hnl. eexists. rewrite rmatch_seq. cbn [rmatch]. apply star_take.
  apply star_take.
  assert (Hl : forallb (item_matches true Any) (drop_while (item_matches true Space) r) = true).
  { rewrite <- (take_drop_while (item_matches true Space) r) in Hnl.
    rewrite forallb_app in Hnl. apply andb_true_iff in Hnl. tauto. }
  destruct (take_while_all _ _ Hl) as [Ht Hd]. rewrite Ht, Hd.
  unfold final. firstn_simpl. rewrite firstn_all2 by lia. reflexivity.
Qed.

Lemma question_re_exact (q : ascii) (ds r : str) :
  item_matches true (Lit "Q") q = true ->
  ds <> [] -> forallb is_digit ds = true ->
  forallb (item_matches true Any) r = true ->
  exists e, re_match true QUESTION_RE (q :: ds ++ "."%char :: r)
            = Some (e, [ds; lstrip r]).
Proof.
  intros Hq Hne Hds Hnl. destruct ds as [|d ds]; [contradiction|].
  cbn [forallb] in Hds. apply andb_true_iff in Hds. destruct Hds as [Hd Hds].
  destruct (take_while_app is_digit ds ("."%char :: r) Hds dot_not_digit) as [Ht Hdr].
  destruct (line_tail_eval (S (2 + length ds)) r [d :: ds] Hnl) as (e & He).
  exists e. unfold re_match, QUESTION_RE.
  rewrite rmatch_seq. cbn [rmatch Nat.eqb]. rewrite Hq.
  cbn [app]. change (item_matches true Digit d) with (is_digit d). rewrite Hd.
  apply star_take. change (item_matches true Digit) with is_digit.
  rewrite Ht, Hdr.
  replace (item_matches true (Lit ".") "."%char) with true by reflexivity.
  replace (2 + length ds - 1) with (S (length ds)) by lia.
  cbn [firstn app]. rewrite (firstn_consumed ds _ _ eq_refl).
  exact He.
Qed.


Lemma one_line_any (l : str) :
  one_line l = forallb (item_matches true Any) l.
Proof. reflexivity. Qed.



Lemma question_loop_stops (lines : list str) :
  forall fuel question_text idx,
    length lines - idx < fuel ->
    exists conts rest,
      skipn idx lines = conts ++ rest /\
      question_loop fuel lines question_text idx
        = Ok (question_text ++ join_wrapped conts, idx + length conts) /\
      Forall (fun l => continues_question l = true) conts /\
      match rest with [] => True | l :: _ => continues_question l = false end.
Proof.
  induction fuel as [|fuel IH]; intros qt idx Hf; [lia|].
  cbn [question_loop]. destruct (skipn idx lines) as [|l rest] eqn:Hs.
  - apply skipn_nil_ge in Hs.
    replace (idx <? length lines)%nat with false by (symmetry; apply Nat.ltb_ge; lia).
    exists [], []. repeat split; [|constructor].
    simpl. now rewrite app_nil_r, Nat.add_0_r.
  - assert (Hlt := skipn_lt _ _ _ _ Hs). apply get_skipn in Hs. destruct Hs as [Hg Hs].
    replace (idx <? length lines)%nat with true by (symmetry; apply Nat.ltb_lt; lia).
    rewrite Hg. cbn [bind]. fold (continues_question l).
    destruct (continues_question l) eqn:Hc.
    + destruct (IH (qt ++ py " " ++ l) (S idx)) as (conts & rest' & Hs' & Hq & Hall & Hr);
        [lia|].
      exists (l :: conts), rest'. repeat split.
      * rewrite Hs in Hs'. simpl. now rewrite Hs'.
      * rewrite Hq, join_wrapped_cons. f_equal. f_equal.
        -- now rewrite <- !app_assoc.
        -- simpl. lia.
      * constructor; assumption.
      * exact Hr.
    + exists [], (l :: rest). repeat split; [|constructor|exact Hc].
      simpl. now rewrite app_nil_r, Nat.add_0_r.
Qed.

(** X9. The question of a block is what its first line gives, followed by
    every line after it, each after a blank, up to the first line that is an
    option line or starts with the answer tag; the options are read from that
    line on, segment by segment. *)
Theorem question_reassembled (block : str) (sc : scan) :
  scan_lines (block_lines block) = Ok sc ->
  exists q_line head conts segs rest,
    block_lines block = q_line :: conts ++ concat segs ++ rest /\
    question_line q_line = Ok (qnum sc, head) /\
    Forall (fun l => continues_question l = true) conts /\
    match concat segs ++ rest with
    | [] => True
    | l :: _ => continues_question l = false
    end /\
    question_text sc = head ++ join_wrapped conts /\
    Forall2 option_segment segs (options sc) /\
    options_end sc = 1 + length conts + length (concat segs).
Proof.
  intros Hsc. assert (Hinv := scan_lines_inv _ _ Hsc).
  destruct Hinv as (q_line & head & i1 & st & Hg & Hq & Hloop & Hopts & _).
  set (lines := block_lines block) in *.
  destruct (question_loop_stops lines (S (length lines)) head 1)
    as (conts & rest0 & Hs & Hl & Hall & Hstop); [lia|].
  rewrite Hl in Hloop. inversion Hloop as [[Hqt Hi]]. subst i1.
  destruct (options_loop_spec lines (block_lines_one_line block) (S (length lines)) []
              (S (length conts))) as (segs & new & rest & Hs2 & Ho & Hsegs & _); [lia|].
  rewrite Ho in Hopts. inversion Hopts as [[Hnew Hend]]. cbn [app] in Hnew. subst new.
  assert (Hrest : rest0 = concat segs ++ rest).
  { rewrite <- Hs2. replace (S (length conts)) with (length conts + 1) by lia.
    rewrite <- skipn_skipn, Hs, skipn_app, skipn_all, Nat.sub_diag. reflexivity. }
  subst rest0.
  exists q_line, head, conts, segs, rest. repeat split; try assumption.
  destruct lines as [|l0 ls]; [discriminate|].
  cbn in Hg. inversion Hg; subst. cbn in Hs. now rewrite Hs.
Qed.

Lemma question_reassembled_witness :
  scan_lines (block_lines wrapped_question_block) = Ok wrapped_question_scan /\
  exists q_line head conts segs rest,
    block_lines wrapped_question_block = q_line :: conts ++ concat segs ++ rest /\
    question_line q_line = Ok (qnum wrapped_question_scan, head) /\
    Forall (fun l => continues_question l = true) conts /\
    match concat segs ++ rest with
    | [] => True
    | l :: _ => continues_question l = false
    end /\
    question_text wrapped_question_scan = head ++ join_wrapped conts /\
    Forall2 option_segment segs (options wrapped_question_scan) /\
    options_end wrapped_question_scan = 1 + length conts + length (concat segs).
Proof.
  assert (H : scan_lines (block_lines wrapped_question_block) = Ok wrapped_question_scan)
    by (vm_compute; reflexivity).
  split; [exact H|]. exact (question_reassembled _ _ H).
Defined.

(** ** The answer line *)

Lemma range_AD_iff (c : ascii) :
  item_matches true (Range "A" "D") c = true <-> In (py_upper [c]) option_letters.
Proof.
  split; [apply range_AD|].
  destruct c as [[] [] [] [] [] [] [] []]; vm_compute;
    intros [H | [H | [H | [H | []]]]]; try discriminate; reflexivity.
Qed.







(** ** The block splitter *)

Lemma lit_exact (x c : ascii) : item_matches false (Lit x) c = true -> c = x.
Proof. cbn [item_matches]. apply Ascii.eqb_eq. Qed.

Lemma separator_sound (pos : nat) (s : str) (m : nat * list str) :
  rmatch false BLOCK_SEP_RE pos s [] final = Some m ->
  exists w t,
    s = w ++ t /\ fst m = pos + length w /\ 2 <= length w /\
    forallb is_space w = true /\ question_marked t.
Proof.
  intros H. apply rmatch_sound in H. destruct H as (p & t & cs & Hr & Hk).
  inversion Hk; subst; clear Hk. unfold BLOCK_SEP_RE in Hr. run_inv.
  match goal with Ha : run _ (Ahead _) _ _ _ _ _ _ |- _ =>
    inversion Ha; subst; clear Ha end.
  run_inv.
  repeat match goal with
         | Hc : item_matches false (Lit _) _ = true |- _ => apply lit_exact in Hc; subst
         end.
  match goal with
  | Hw : forallb (item_matches false Space) ?ws = true,
    Hd : forallb (item_matches false Digit) ?ds = true
    |- context [?ds ++ "."%char :: ?t'] =>
      exists ("010"%char :: ws ++ ["010"%char]), ("Q"%char :: ds ++ "."%char :: t');
      repeat split
  end.
  - cbn [app]. now rewrite <- app_assoc.
  - cbn [fst length]. rewrite length_app. cbn [length]. lia.
  - cbn [length]. rewrite length_app. cbn [length]. lia.
  - cbn [forallb]. rewrite forallb_app. cbn [forallb].
    match goal with Hw : forallb (item_matches false Space) _ = true |- _ =>
      change (item_matches false Space) with is_space in Hw; rewrite Hw end.
    reflexivity.
  - eexists _, _. repeat split; eassumption.
Qed.

Lemma separator_starts_with_nl (pos : nat) (c : ascii) (s : str) :
  Ascii.eqb c "010" = false ->
  rmatch false BLOCK_SEP_RE pos (c :: s) [] final = None.
Proof.
  intros Hc. unfold BLOCK_SEP_RE. cbn [rmatch item_matches]. now rewrite Hc.
Qed.

Lemma cut_head (ic : bool) (r : regex) (s : str) :
  forall pos skip cur,
    exists rest tl, cut_matches ic r pos skip s cur = (rev cur ++ rest) :: tl.
Proof.
  induction s as [|c s IH]; intros pos skip cur.
  - exists [], []. simpl. now rewrite app_nil_r.
  - cbn [cut_matches]. destruct skip as [|k]; [|apply IH].
    assert (Hkeep : exists rest tl,
               cut_matches ic r (S pos) 0 s (c :: cur) = (rev cur ++ rest) :: tl).
    { destruct (IH (S pos) 0 (c :: cur)) as (rest & tl & ->).
      exists (c :: rest), tl. simpl. now rewrite <- app_assoc. }
    destruct (rmatch ic r pos (c :: s) [] final) as [[e cs]|]; [|exact Hkeep].
    destruct (pos <? e)%nat; [|exact Hkeep].
    exists [], (cut_matches ic r (S pos) (e - pos - 1) s []). now rewrite app_nil_r.
Qed.

Lemma cut_line (w s : str) :
  forall pos cur,
    forallb (fun c => negb (Ascii.eqb c "010")) w = true ->
    cut_matches false BLOCK_SEP_RE pos 0 (w ++ s) cur
    = cut_matches false BLOCK_SEP_RE (pos + length w) 0 s (rev w ++ cur).
Proof.
  induction w as [|c w IH]; intros pos cur Hw.
  - simpl. now rewrite Nat.add_0_r.
  - cbn [forallb] in Hw. apply andb_true_iff in Hw. destruct Hw as [Hc Hw].
    apply negb_true_iff in Hc.
    cbn [app cut_matches]. rewrite separator_starts_with_nl by exact Hc.
    rewrite IH by exact Hw. cbn [rev length]. rewrite <- app_assoc. f_equal. lia.
Qed.

Lemma digits_no_nl (ds : str) :
  forallb is_digit ds = true -> forallb (fun c => negb (Ascii.eqb c "010")) ds = true.
Proof.
  induction ds as [|d ds IH]; [reflexivity|]. cbn [forallb].
  intros H. apply andb_true_iff in H. destruct H as [Hd H]. rewrite (IH H).
  rewrite andb_true_r. revert Hd.
  destruct d as [[] [] [] [] [] [] [] []]; vm_compute; intros Hd;
    try discriminate; reflexivity.
Qed.

Lemma cut_marked (n : nat) :
  forall s pos skip cur,
    length s <= n ->
    Forall question_marked (tl (cut_matches false BLOCK_SEP_RE pos skip s cur)).
Proof.
  induction n as [|n IH]; intros s pos skip cur Hn.
  - destruct s; [constructor | simpl in Hn; lia].
  - destruct s as [|c s]; [constructor|]. cbn [length] in Hn.
    cbn [cut_matches]. destruct skip as [|k]; [|apply IH; lia].
    destruct (rmatch false BLOCK_SEP_RE pos (c :: s) [] final) as [[e cs]|] eqn:Hm;
      [|apply IH; lia].
    destruct (pos <? e)%nat; [|apply IH; lia]. cbn [tl].
    apply separator_sound in Hm.
    destruct Hm as (w & t & Hs & He & Hw2 & _ & (ds & rest & Ht & Hne & Hds)).
    cbn [fst] in He. destruct w as [|c' w]; [simpl in Hw2; lia|].
    cbn [app] in Hs. injection Hs as <- Hs. cbn [length] in He, Hw2.
    rewrite cut_skip. replace (e - pos - 1) with (length w) by lia.
    rewrite Hs, skipn_app_exact by reflexivity. rewrite Ht.
    change ("Q"%char :: ds ++ "."%char :: rest)
      with (["Q"%char] ++ ds ++ "."%char :: rest).
    rewrite app_assoc.
    change ("."%char :: rest) with (["."%char] ++ rest). rewrite app_assoc.
    rewrite cut_line.
    2:{ rewrite !forallb_app, (digits_no_nl ds Hds). reflexivity. }
    destruct (cut_head false BLOCK_SEP_RE rest
                (S pos + length w + length ((["Q"%char] ++ ds) ++ ["."%char])) 0
                (rev ((["Q"%char] ++ ds) ++ ["."%char]) ++ []))
      as (rest0 & tl0 & Hcut).
    assert (Htl := IH rest
                (S pos + length w + length ((["Q"%char] ++ ds) ++ ["."%char])) 0
                (rev ((["Q"%char] ++ ds) ++ ["."%char]) ++ [])).
    rewrite Hcut in Htl |- *. cbn [tl] in Htl. constructor.
    + rewrite app_nil_r, rev_involutive. exists ds, rest0.
      repeat split; try assumption. cbn [app]. now rewrite <- !app_assoc.
    + apply Htl. rewrite Hs, Ht, length_app in Hn. cbn [length] in Hn.
      rewrite length_app in Hn. cbn [length] in Hn. lia.
Qed.

(** X11. Every block after the first opens with a question marker: a capital
    Q, digits and a period. (Only the first block can start otherwise.) *)
Theorem later_blocks_are_marked (text : str) :
  Forall question_marked (tl (blocks_of text)).
Proof.
  unfold blocks_of, re_split. eapply cut_marked. reflexivity.
Qed.

Lemma non_blank_app (a b : str) : non_blank (a ++ b) = non_blank a ++ non_blank b.
Proof. apply filter_app. Qed.

Lemma non_blank_space (c : ascii) (s : str) :
  is_space c = true -> non_blank (c :: s) = non_blank s.
Proof. intros H. unfold non_blank. cbn [filter]. now rewrite H. Qed.

Lemma non_blank_spaces (w : str) : forallb is_space w = true -> non_blank w = [].
Proof.
  induction w as [|c w IH]; [reflexivity|]. cbn [forallb]. intros H.
  apply andb_true_iff in H. destruct H as [Hc Hw].
  rewrite non_blank_space by exact Hc. now apply IH.
Qed.

Lemma cut_non_blank (s : str) :
  forall pos skip cur,
    forallb is_space (firstn skip s) = true ->
    non_blank (concat (cut_matches false BLOCK_SEP_RE pos skip s cur))
    = non_blank (rev cur ++ s).
Proof.
  induction s as [|c s IH]; intros pos skip cur Hskip.
  - simpl. now rewrite !app_nil_r.
  - cbn [cut_matches]. destruct skip as [|k].
    + assert (Hkeep : non_blank (concat (cut_matches false BLOCK_SEP_RE (S pos) 0 s (c :: cur)))
                      = non_blank (rev cur ++ c :: s)).
      { rewrite IH by reflexivity. cbn [rev]. now rewrite <- app_assoc. }
      destruct (rmatch false BLOCK_SEP_RE pos (c :: s) [] final) as [[e cs]|] eqn:Hm;
        [|exact Hkeep].
      destruct (pos <? e)%nat; [|exact Hkeep].
      apply separator_sound in Hm.
      destruct Hm as (w & t & Hs & He & Hw2 & Hw & _). cbn [fst] in He.
      destruct w as [|c' w]; [simpl in Hw2; lia|].
      cbn [app] in Hs. injection Hs as <- Hs. cbn [length] in He.
      cbn [forallb] in Hw. apply andb_true_iff in Hw. destruct Hw as [Hc Hw].
      cbn [concat]. rewrite non_blank_app, IH.
      * cbn [rev app]. rewrite non_blank_app, (non_blank_space c s Hc). reflexivity.
      * replace (e - pos - 1) with (length w) by lia.
        rewrite Hs, firstn_consumed by reflexivity. exact Hw.
    + cbn [firstn forallb] in Hskip. apply andb_true_iff in Hskip.
      destruct Hskip as [Hc Hk]. rewrite IH by exact Hk.
      rewrite !non_blank_app, (non_blank_space c s Hc). reflexivity.
Qed.

Lemma non_blank_drop_while (s : str) : non_blank (drop_while is_space s) = non_blank s.
Proof.
  induction s as [|c s IH]; [reflexivity|]. cbn [drop_while].
  destruct (is_space c) eqn:Hc; [|reflexivity].
  now rewrite non_blank_space.
Qed.

Lemma non_blank_rev (s : str) : non_blank (rev s) = rev (non_blank s).
Proof.
  induction s as [|c s IH]; [reflexivity|]. cbn [rev]. rewrite non_blank_app, IH.
  unfold non_blank. cbn [filter].
  destruct (negb (is_space c)); cbn [rev]; [reflexivity | apply app_nil_r].
Qed.

Lemma non_blank_strip (s : str) : non_blank (strip s) = non_blank s.
Proof.
  unfold strip, rstrip, lstrip.
  rewrite non_blank_rev, non_blank_drop_while, non_blank_rev, rev_involutive.
  apply non_blank_drop_while.
Qed.

Lemma non_blank_replace_crlf (s : str) :
  non_blank (replace_crlf s) = non_blank s /\
  forall c, non_blank (replace_crlf (c :: s)) = non_blank (c :: s).
Proof.
  induction s as [|d s [IH1 IH2]].
  - split; [reflexivity|]. intros c. reflexivity.
  - split; [apply IH2|]. intros c. cbn [replace_crlf].
    destruct (Ascii.eqb c "013") eqn:Hc; cbn [andb].
    + apply Ascii.eqb_eq in Hc. subst c.
      destruct (Ascii.eqb d "010") eqn:Hd.
      * apply Ascii.eqb_eq in Hd. subst d.
        rewrite !non_blank_space by reflexivity. exact IH1.
      * rewrite !(non_blank_space "013") by reflexivity. apply IH2.
    + unfold non_blank in *. cbn [filter]. fold (non_blank (d :: s)).
      destruct (negb (is_space c)); [f_equal|]; apply IH2.
Qed.

(** X12. Cutting the text into blocks loses nothing but blanks: the
    characters of the blocks that are not blanks are, in order, those of the
    text. *)
Theorem blocks_keep_text (text : str) :
  non_blank (concat (blocks_of text)) = non_blank text.
Proof.
  unfold blocks_of, re_split. rewrite cut_non_blank by reflexivity.
  cbn [rev app]. rewrite non_blank_strip. apply non_blank_replace_crlf.
Qed.

(** ** The module string *)

Lemma uint_chars_digits (d : Decimal.uint) :
  forallb is_digit (list_ascii_of_string (NilEmpty.string_of_uint d)) = true.
Proof. induction d; simpl; auto. Qed.

Lemma uint_chars_acc (d : Decimal.uint) :
  forall p,
    fold_left (fun acc c => (10 * acc + digit_value c)%N)
      (list_ascii_of_string (NilEmpty.string_of_uint d)) (N.pos p)
    = N.pos (Pos.of_uint_acc d p).
Proof.
  induction d; intros p; cbn [NilEmpty.string_of_uint list_ascii_of_string fold_left
                              Pos.of_uint_acc];
    [reflexivity | rewrite <- IHd; f_equal; vm_compute digit_value; lia ..].
Qed.

Lemma uint_chars_value (d : Decimal.uint) :
  fold_left (fun acc c => (10 * acc + digit_value c)%N)
    (list_ascii_of_string (NilEmpty.string_of_uint d)) 0%N
  = Pos.of_uint d.
Proof.
  induction d; cbn [NilEmpty.string_of_uint list_ascii_of_string fold_left Pos.of_uint];
    [reflexivity | exact IHd | apply uint_chars_acc ..].
Qed.

Lemma py_str_int_digits (n : N) :
  py_str_int n <> [] /\ forallb is_digit (py_str_int n) = true.
Proof.
  unfold py_str_int. split; [|apply uint_chars_digits].
  destruct n as [|p]; [discriminate|]. cbn [N.to_uint].
  pose proof (DecimalPos.Unsigned.to_uint_nonnil p) as Hp.
  destruct (Pos.to_uint p); [contradiction | discriminate ..].
Qed.

Lemma py_int_py_str_int (n : N) : py_int (py_str_int n) = Ok n.
Proof.
  destruct (py_str_int_digits n) as [Hne Hd]. unfold py_int. rewrite Hd.
  destruct (py_str_int n) as [|c s] eqn:Hs; [contradiction|]. cbn [truthy andb].
  rewrite <- Hs. unfold py_str_int. rewrite uint_chars_value.
  f_equal. apply DecimalN.Unsigned.of_to.
Qed.

Lemma digit_lower (c : ascii) : is_digit c = true -> lower_char c = c.
Proof.
  destruct c as [[] [] [] [] [] [] [] []]; vm_compute; intros H;
    try discriminate; reflexivity.
Qed.

Lemma all_digits_no_post (ds post digits : str) :
  ds ++ post = digits -> forallb is_digit digits = true -> no_digit_ahead post ->
  post = [].
Proof.
  intros <- Hd Hpost. rewrite forallb_app in Hd. apply andb_true_iff in Hd.
  destruct Hd as [_ Hd]. destruct post as [|c post]; [reflexivity|].
  cbn in Hd, Hpost. rewrite Hpost in Hd. discriminate.
Qed.

Lemma extract_module_of_digits (digits : str) (n : N) :
  digits <> [] -> forallb is_digit digits = true -> py_int digits = Ok n ->
  extract_module (py "MD" ++ digits) = Ok (py "MD" ++ py_str_int n).
Proof.
  intros Hne Hd Hn.
  assert (Htag : module_tag (py "MD") [] digits).
  { repeat split; try assumption. now left. }
  destruct (module_at_complete 0 (py "MD") [] digits [] Htag) as (m & Hm).
  cbn [app] in Hm. rewrite app_nil_r in Hm.
  unfold extract_module, re_search.
  destruct digits as [|d0 digits]; [contradiction|].
  cbn [app list_ascii_of_string search_from] in *. rewrite Hm. cbn [orelse].
  apply module_at_sound in Hm.
  destruct Hm as (kw & ws & ds & post & g & Hs & (Hkw & Hws & Hdne & Hds) & Hpost & Hg & Hint).
  assert (Hd0 : is_digit d0 = true).
  { cbn [forallb] in Hd. apply andb_true_iff in Hd. tauto. }
  assert (Hrest : ws ++ ds ++ post = d0 :: digits).
  { destruct Hkw as [Hkw | Hkw].
    - destruct kw as [|c1 [|c2 [|c3 kw]]]; try discriminate.
      cbn [app] in Hs. now injection Hs as _ _ Hs.
    - destruct kw as [|c1 [|c2 [|c3 [|c4 kw]]]]; try discriminate.
      cbn [app] in Hs. injection Hs as _ _ H3 _. subst c3.
      cbn [py_lower map] in Hkw. injection Hkw as _ _ H3.
      rewrite (digit_lower d0 Hd0) in H3. subst d0. discriminate. }
  destruct ws as [|w ws].
  - cbn [app] in Hrest.
    rewrite (all_digits_no_post ds post _ Hrest Hd Hpost), app_nil_r in Hrest.
    subst ds. unfold group. rewrite Hg. cbn [nth_error Nat.sub bind].
    rewrite Hint, Hn. reflexivity.
  - cbn [app] in Hrest. injection Hrest as -> _.
    cbn [forallb] in Hws. apply andb_true_iff in Hws. destruct Hws as [Hw _].
    rewrite (digit_not_space d0 Hd0) in Hw. discriminate.
Qed.

(** X13. The module string is in canonical form: it is "Other", or "MD"
    followed by the decimal numeral of a number, a numeral that reads back as
    that number. Deriving the module of a module string gives it back. *)
Theorem extract_module_canonical (label m : str) :
  extract_module label = Ok m ->
  (m = py "Other" \/
   exists n, m = py "MD" ++ py_str_int n /\ py_int (py_str_int n) = Ok n) /\
  extract_module m = Ok m.
Proof.
  unfold extract_module at 1. intros H.
  destruct (re_search true MODULE_RE label) as [mo|].
  - apply bind_ok in H. destruct H as (g & _ & H).
    apply bind_ok in H. destruct H as (n & _ & H). inversion H; subst m.
    split.
    + right. exists n. split; [reflexivity | apply py_int_py_str_int].
    + destruct (py_str_int_digits n) as [Hne Hd].
      apply extract_module_of_digits; try assumption. apply py_int_py_str_int.
  - inversion H; subst m. split; [now left | reflexivity].
Qed.

Lemma extract_module_canonical_witness :
  extract_module (py "notes mod  007b") = Ok (py "MD7") /\
  (py "MD7" = py "Other" \/
   exists n, py "MD7" = py "MD" ++ py_str_int n /\ py_int (py_str_int n) = Ok n) /\
  extract_module (py "MD7") = Ok (py "MD7").
Proof.
  split; [reflexivity|]. apply (extract_module_canonical (py "notes mod  007b")).
  reflexivity.
Defined.

(** ** A block laid out as the format has it *)











(** ** Line ends *)

Lemma to_crlf_head (s : str) :
  match to_crlf s with [] => True | d :: _ => Ascii.eqb d "010" = false end.
Proof.
  destruct s as [|c s]; [exact I|]. cbn [to_crlf].
  destruct (Ascii.eqb c "010") eqn:Hc; [reflexivity | exact Hc].
Qed.

Lemma replace_crlf_to_crlf (s : str) : replace_crlf (to_crlf s) = s.
Proof.
  induction s as [|c s IH]; [reflexivity|]. cbn [to_crlf].
  destruct (Ascii.eqb c "010") eqn:Hc.
  - apply Ascii.eqb_eq in Hc. subst c. cbn [replace_crlf].
    change (Ascii.eqb "013" "013" && Ascii.eqb "010" "010") with true. cbv iota.
    now rewrite IH.
  - cbn [replace_crlf]. pose proof (to_crlf_head s) as Hh.
    destruct (to_crlf s) as [|d s'] eqn:Hs.
    + destruct s as [|c' s]; [reflexivity|]. cbn [to_crlf] in Hs.
      destruct (Ascii.eqb c' "010"); discriminate.
    + rewrite Hh, andb_false_r. now rewrite IH.
Qed.

Lemma replace_crlf_step (c d : ascii) (s : str) :
  replace_crlf (c :: d :: s)
  = if Ascii.eqb c "013" && Ascii.eqb d "010" then "010"%char :: replace_crlf s
    else c :: replace_crlf (d :: s).
Proof. reflexivity. Qed.

Lemma replace_crlf_no_cr (s : str) :
  (no_cr s = true -> replace_crlf s = s) /\
  (forall c, no_cr (c :: s) = true -> replace_crlf (c :: s) = c :: s).
Proof.
  unfold no_cr. induction s as [|d s [IH1 IH2]].
  - split; [reflexivity|]. intros c _. reflexivity.
  - split; [apply IH2|]. intros c H. cbn [forallb] in H.
    apply andb_true_iff in H. destruct H as [Hc H]. apply negb_true_iff in Hc.
    rewrite replace_crlf_step, Hc. cbn [andb]. now rewrite IH2.
Qed.

(** X15. A text without carriage returns gives the same records when its
    line ends are written as carriage return, line feed. *)
Theorem crlf_line_ends_accepted (text source_name : str) :
  no_cr text = true ->
  parse_quiz_text (to_crlf text) source_name = parse_quiz_text text source_name.
Proof.
  intros H. unfold parse_quiz_text.
  now rewrite replace_crlf_to_crlf, (proj1 (replace_crlf_no_cr text) H).
Qed.

Lemma crlf_line_ends_accepted_witness :
  no_cr arithmetic_block = true /\
  parse_quiz_text (to_crlf arithmetic_block) [] = parse_quiz_text arithmetic_block [].
Proof.
  split; [reflexivity|]. apply crlf_line_ends_accepted. reflexivity.
Defined.

(** X16. A line is taken for an option line exactly when it starts with one
    of the letters A to D, in either case, and a period right after it. *)
Theorem option_line_shape (l : str) :
  is_option_start l = true <->
  exists c rest, l = c :: "."%char :: rest /\ In (py_upper [c]) option_letters.
Proof.
  split.
  - intros H. destruct (is_option_start_inv l H) as (c & rest & -> & Hc).
    exists c, rest. split; [reflexivity | now apply range_AD].
  - intros (c & rest & -> & Hc). apply range_AD_iff in Hc.
    unfold is_option_start, re_match, OPTION_START_RE. cbn [rmatch Nat.eqb].
    rewrite Hc. reflexivity.
Qed.

(** ** Question numbers of the later blocks *)

Lemma split_on_prefix (w rest : str) :
  forallb (fun c => negb (Ascii.eqb c "010")) w = true ->
  exists r0 ls, split_on "010" (w ++ rest) = (w ++ r0) :: ls.
Proof.
  induction w as [|c w IH]; intros Hw.
  - cbn [app]. destruct (split_on "010" rest) as [|l ls] eqn:Hs.
    + destruct rest as [|c rest]; [discriminate|]. cbn [split_on] in Hs.
      destruct (Ascii.eqb c "010"); [discriminate|].
      destruct (split_on "010" rest); discriminate.
    + eauto.
  - cbn [forallb] in Hw. apply andb_true_iff in Hw. destruct Hw as [Hc Hw].
    apply negb_true_iff in Hc. destruct (IH Hw) as (r0 & ls & Hs).
    cbn [app split_on]. rewrite Hc, Hs. eauto.
Qed.

Lemma drop_while_app_stop (p : ascii -> bool) (a b : str) :
  match b with [] => False | c :: _ => p c = false end ->
  exists a', drop_while p (a ++ b) = a' ++ b.
Proof.
  intros Hb. induction a as [|x a IH].
  - exists []. cbn [app]. destruct b as [|c b]; [contradiction|].
    cbn [drop_while]. now rewrite Hb.
  - cbn [app drop_while]. destruct (p x); [exact IH|]. now exists (x :: a).
Qed.

Lemma strip_keeps_core (c : ascii) (w : str) (d : ascii) (r0 : str) :
  is_space c = false -> is_space d = false ->
  exists r, strip (c :: w ++ d :: r0) = c :: w ++ d :: r.
Proof.
  intros Hc Hd. unfold strip, lstrip, rstrip. cbn [drop_while]. rewrite Hc.
  replace (c :: w ++ d :: r0) with ((c :: w ++ [d]) ++ r0)
    by (cbn [app]; now rewrite <- app_assoc).
  rewrite rev_app_distr.
  destruct (drop_while_app_stop is_space (rev r0) (rev (c :: w ++ [d]))) as (a' & Ha).
  { replace (c :: w ++ [d]) with ((c :: w) ++ [d]) by reflexivity.
    rewrite rev_app_distr. cbn [rev app]. exact Hd. }
  rewrite Ha, rev_app_distr, rev_involutive. exists (rev a').
  cbn [app]. now rewrite <- app_assoc.
Qed.

Lemma marked_block_first_line (b : str) :
  question_marked b ->
  exists l0 ls ds r, block_lines b = l0 :: ls /\ numbered_line l0 ds r.
Proof.
  intros (ds & rest & -> & Hne & Hds).
  destruct (split_on_prefix ("Q"%char :: ds ++ ["."%char]) rest) as (r0 & ls & Hs).
  { cbn [app forallb]. rewrite forallb_app, (digits_no_nl ds Hds). reflexivity. }
  replace (("Q"%char :: ds ++ ["."%char]) ++ rest) with ("Q"%char :: ds ++ "."%char :: rest)
    in Hs by (cbn [app]; now rewrite <- app_assoc).
  replace (("Q"%char :: ds ++ ["."%char]) ++ r0) with ("Q"%char :: ds ++ "."%char :: r0)
    in Hs by (cbn [app]; now rewrite <- app_assoc).
  destruct (strip_keeps_core "Q" ds "." r0 eq_refl eq_refl) as (r & Hr).
  unfold block_lines. rewrite Hs. cbn [filter]. rewrite Hr. cbn [truthy map].
  rewrite Hr. eexists _, _, ds, r. split; [reflexivity|].
  exists "Q"%char. repeat split; auto.
Qed.

Lemma marked_block_numbered
  (b source_name module difficulty : str) (q : QuestionRecord) :
  question_marked b ->
  parse_block b source_name module difficulty = Ok (Some q) ->
  questionNumber q <> None.
Proof.
  intros Hb Hp. apply parse_block_inv in Hp. destruct Hp as (sc & a & Hsc & _ & _ & ->).
  cbn [questionNumber].
  destruct (marked_block_first_line b Hb) as (l0 & ls & ds & r & Hl & (c & -> & Hc & Hne & Hds)).
  pose proof (block_lines_one_line b) as Hone. rewrite Hl in Hone.
  inversion Hone as [|? ? Hone0 _]; subst.
  apply scan_lines_inv in Hsc.
  destruct Hsc as (q_line & qt0 & _ & _ & Hg & Hq & _).
  rewrite Hl in Hg. cbn in Hg. inversion Hg; subst q_line.
  assert (Hr : forallb (item_matches true Any) r = true).
  { rewrite one_line_any in Hone0. cbn [forallb] in Hone0.
    apply andb_true_iff in Hone0. destruct Hone0 as [_ Hone0].
    rewrite forallb_app in Hone0. apply andb_true_iff in Hone0.
    destruct Hone0 as [_ Hone0]. cbn [forallb] in Hone0.
    apply andb_true_iff in Hone0. tauto. }
  destruct (question_re_exact c ds r (proj2 (lit_Q c) Hc) Hne Hds Hr) as (e & He).
  destruct (py_int_ok ds Hne Hds) as (n & Hn).
  unfold question_line in Hq. rewrite He in Hq.
  unfold group in Hq. cbn [snd nth_error Nat.sub bind] in Hq. rewrite Hn in Hq.
  cbn [bind] in Hq. inversion Hq. discriminate.
Qed.

Lemma Forall_tl {A : Type} (P : A -> Prop) (l : list A) : Forall P l -> Forall P (tl l).
Proof. intros H. destruct H; [constructor | assumption]. Qed.

Lemma later_results_numbered (source_name module difficulty : str) :
  forall (bs : list str) (rs : list (option QuestionRecord)),
    Forall question_marked bs ->
    Forall2 (fun b r => parse_block b source_name module difficulty = Ok r) bs rs ->
    Forall (fun q => questionNumber q <> None) (flat_map emitted rs).
Proof.
  intros bs rs Hbs Hrs. induction Hrs as [|b r bs rs Hr _ IH]; [constructor|].
  inversion Hbs; subst. cbn [flat_map]. apply Forall_app. split; [|now apply IH].
  destruct r as [q|]; [|constructor]. repeat constructor.
  eapply marked_block_numbered; eassumption.
Qed.

(** X17. Only the first record of a text can lack a question number: every
    record after the first comes from a block that opens with a question
    marker, and carries the number of that marker. *)
Theorem later_records_numbered
  (text source_name : str) (questions : list QuestionRecord) :
  parse_quiz_text text source_name = Ok questions ->
  Forall (fun q => questionNumber q <> None) (tl questions).
Proof.
  intros H. destruct (parse_quiz_text_blocks _ _ _ H) as (module & _ & [[_ ->] | Hb]);
    [constructor|].
  destruct (blocks_loop_results (blocks_of text) source_name module
              (extract_difficulty source_name) []) as (rs & Hrs & Hq).
  rewrite Hb in Hq. inversion Hq; subst questions. cbn [app].
  assert (Hm : Forall question_marked (tl (blocks_of text))).
  { unfold blocks_of, re_split. eapply cut_marked. reflexivity. }
  destruct Hrs as [|b r bs rs Hr Hrs]; [constructor|].
  cbn [tl] in Hm. cbn [flat_map].
  pose proof (later_results_numbered _ _ _ bs rs Hm Hrs) as Hall.
  destruct r as [q|]; cbn [emitted app tl]; [exact Hall | now apply Forall_tl].
Qed.

Lemma later_records_numbered_witness :
  parse_quiz_text two_question_text (py "mod 07 hard") = Ok two_question_records /\
  Forall (fun q => questionNumber q <> None) (tl two_question_records).
Proof.
  assert (H : parse_quiz_text two_question_text (py "mod 07 hard")
              = Ok two_question_records) by (vm_compute; reflexivity).
  split; [exact H|]. exact (later_records_numbered _ _ _ H).
Defined.
